(** * PSD_Temple: the rendering and caching core

    A shallow embedding of [src/utils/cache_manager.py] (the on-disk
    [PSDFileCache]), [src/rendering.py] (the composite generator and the
    [PSDFullRenderer] state machine) and of
    [PSDDocument.set_layer_visibility] from [src/models/psd.py], followed by
    the properties of the specification that are stated about them.

    Python objects are records, attributes that the code probes with
    [hasattr]/[getattr] are [option] fields, dictionaries are [gmap]s, and a
    call that can raise returns a [result].  Mutable state (the file system,
    the clock, the log, the cache object, the renderer) is passed explicitly. *)

From stdpp Require Import gmap strings list fin_maps pretty sorting.
From Stdlib Require Import Ascii ZArith Lia.

Local Open Scope Z_scope.

(** ** Python basics *)

Module Py.

(** An exception: its class name and [str(e)]. *)
Record exn := Exn { exc_type : string; exc_msg : string }.

Inductive result (A : Type) : Type :=
| Ok (a : A)
| Raise (e : exn).
Global Arguments Ok {A} a.
Global Arguments Raise {A} e.

Definition is_ok {A} (r : result A) : bool :=
  match r with Ok _ => true | Raise _ => false end.

(** [logging] levels used by the two modules, and one log record. *)
Inductive level := DEBUG | WARNING | ERROR.
Record LogRecord := Log { log_level : level; log_msg : string }.

(** [s.split(c)] for a one-character separator. *)
Fixpoint split (c : ascii) (s : string) : list string :=
  match s with
  | EmptyString => [EmptyString]
  | String a s' =>
      if Ascii.eqb a c then EmptyString :: split c s'
      else match split c s' with
           | [] => [String a EmptyString]
           | hd :: tl => String a hd :: tl
           end
  end.

(** [s.split(c)[-1]]. *)
Definition split_last (c : ascii) (s : string) : string :=
  List.last (split c s) EmptyString.

(** [sep.join(l)]. *)
Definition join (sep : string) (l : list string) : string :=
  String.concat sep l.

(** Truthiness of an [int]. *)
Definition truthy_int (z : Z) : bool := negb (z =? 0).

(** [x or y] on integers. *)
Definition or_int (x y : Z) : Z := if truthy_int x then x else y.

(** Truthiness of a [str] ([Optional[str]] with [None] as [None]). *)
Definition truthy_str (s : option string) : bool :=
  match s with
  | Some (String _ _) => true
  | _ => false
  end.

(** [pathlib.PurePath.name] and [.suffix] for POSIX paths:
    [i = name.rfind('.')], the suffix is [name[i:]] when
    [0 < i < len(name) - 1] and empty otherwise. *)
Definition path_name (p : string) : string := split_last "/" p.

Definition path_suffix (p : string) : string :=
  let name := path_name p in
  match split "." name with
  | [] | [_] => EmptyString
  | parts =>
      let ext := List.last parts EmptyString in
      let i := (String.length name - String.length ext - 1)%nat in
      if bool_decide (0 < i)%nat && negb (String.eqb ext EmptyString)
      then "." +:+ ext else EmptyString
  end.

(** [dir / name]. *)
Definition path_join (dir name : string) : string := dir +:+ "/" +:+ name.

(** The line feed, and a one-character string holding it. *)
Definition LF : ascii := ascii_of_nat 10.
Definition nl : string := String LF EmptyString.

(** Sequencing of calls that may raise: [x ← r; k] runs [k] on the value
    of [r] and propagates its exception. *)
Global Instance result_ret : MRet result := λ A a, Ok a.
Global Instance result_bind : MBind result := λ A B k r,
  match r with
  | Ok a => k a
  | Raise e => Raise e
  end.

(** [AttributeError] for a missing attribute. *)
Definition AttributeError (attr : string) : exn :=
  Exn "AttributeError" ("object has no attribute '" +:+ attr +:+ "'").

End Py.
Export Py.


(** ** External libraries

  Pillow, [hashlib] and [json] are not part of the repository: their
  operations are the fields of a class, and every definition below is
  parametric in it.  An operation that mutates an image in place returns
  the new image; when it raises, the image is left as it was. *)

(** One value of the cache's [metadata] dictionary
  ([save_image_to_cache], lines 130-136). *)
Record MetaEntry := {
meta_source_path : string;
meta_cache_path : string;
meta_size : Z;
meta_created_at : Z;
meta_last_accessed : Z;
}.

Class Externals := {
Image : Type;
Font : Type;
(** contents of a file on disk, and its length in bytes *)
Blob : Type;
blob_size : Blob → Z;
(** [Image.new(mode, size, color)] *)
Image_new : string → Z * Z → list Z → result Image;
(** [canvas.alpha_composite(im, dest)] *)
alpha_composite : Image → Image → Z * Z → result Image;
(** [ImageDraw.Draw(img)] *)
ImageDraw_Draw : Image → result unit;
(** [ImageFont.load_default()] *)
ImageFont_load_default : result Font;
(** [draw.text(xy, line, fill=fill, font=font)] *)
draw_text : Image → Z * Z → string → list Z → Font → result Image;
(** the PNG encoder behind [image.save(path, "PNG", optimize=True)] *)
png_encode : Image → result Blob;
(** the decoder behind [Image.open(path)] *)
Image_open : Blob → result Image;
(** [hashlib.md5(data).hexdigest()] *)
md5_hexdigest : string → string;
(** the text written by [json.dump(metadata, f, indent=2)] *)
json_dump : gmap string MetaEntry → Blob;
(** [json.load(f)] *)
json_load : Blob → result (gmap string MetaEntry);
}.

(** ** The operating system: files, clock, log

  A file carries its contents, the two time stamps the code reads and
  whether the operating system refuses to remove or overwrite it (a
  read-only directory, a file held open on Windows): [os.remove] and
  [open(path, 'w')] are the calls the code wraps in [try]/[except].
  Time stamps are integers (the clock's ticks). *)

Module OS.
Section OS.
Context `{Externals}.

Record File := {
  f_content : Blob;
  st_mtime : Z;
  st_atime : Z;
  f_locked : bool;
}.

Definition st_size (f : File) : Z := blob_size (f_content f).

Record World := {
  fs : gmap string File;
  clock : Z;
  log : list LogRecord;
}.

Definition set_fs (w : World) (m : gmap string File) : World :=
  {| fs := m; clock := clock w; log := log w |}.

(** [logger.<level>(msg)] *)
Definition emit (l : level) (msg : string) (w : World) : World :=
  {| fs := fs w; clock := clock w; log := log w ++ [Log l msg] |}.

(** [path.exists()] *)
Definition exists_ (w : World) (path : string) : bool :=
  bool_decide (is_Some (fs w !! path)).

(** [os.stat(path)] *)
Definition stat (w : World) (path : string) : result File :=
  match fs w !! path with
  | Some f => Ok f
  | None => Raise (Exn "FileNotFoundError" ("No such file or directory: " +:+ path))
  end.

(** [os.remove(path)] *)
Definition remove (w : World) (path : string) : result World :=
  match fs w !! path with
  | None => Raise (Exn "FileNotFoundError" ("No such file or directory: " +:+ path))
  | Some f =>
      if f_locked f
      then Raise (Exn "PermissionError" ("Permission denied: " +:+ path))
      else Ok (set_fs w (delete path (fs w)))
  end.

(** [open(path, 'w')] followed by writing [data]: a new file gets the
    current time in both stamps, an existing one keeps its access time. *)
Definition write (w : World) (path : string) (data : Blob) : result World :=
  match fs w !! path with
  | None =>
      Ok (set_fs w (<[path := {| f_content := data; st_mtime := clock w;
                                 st_atime := clock w; f_locked := false |}]> (fs w)))
  | Some f =>
      if f_locked f
      then Raise (Exn "PermissionError" ("Permission denied: " +:+ path))
      else Ok (set_fs w (<[path := {| f_content := data; st_mtime := clock w;
                                      st_atime := st_atime f; f_locked := false |}]> (fs w)))
  end.

(** [dir.glob("**/*")] restricted to regular files: every file below
    [dir], in the order the directory listing yields them. *)
Definition glob_files (w : World) (dir : string) : list (string * File) :=
  List.filter (λ pf, String.prefix (dir +:+ "/") pf.1) (map_to_list (fs w)).

End OS.
End OS.

(** ** [src/utils/cache_manager.py]: [PSDFileCache] *)

Module Cache.
Import OS.
Section Cache.
Context `{Externals}.

Record PSDFileCache := {
  cache_dir : string;
  metadata_file : string;
  metadata : gmap string MetaEntry;
  max_cache_size : Z;
}.

Definition set_metadata (self : PSDFileCache) (m : gmap string MetaEntry)
  : PSDFileCache :=
  {| cache_dir := cache_dir self; metadata_file := metadata_file self;
     metadata := m; max_cache_size := max_cache_size self |}.

(** [_load_metadata] (lines 31-39), returning the dictionary to install. *)
Definition _load_metadata (mfile : string) (w : World)
  : gmap string MetaEntry * World :=
  match fs w !! mfile with
  | None => (∅, w)
  | Some f =>
      match json_load (f_content f) with
      | Ok m => (m, w)
      | Raise e =>
          (∅, emit WARNING ("Failed to load cache metadata: " +:+ exc_msg e) w)
      end
  end.

(** [__init__] (lines 18-29). *)
Definition init (dir : string) (w : World) : PSDFileCache * World :=
  let mfile := path_join dir "metadata.json" in
  let '(m, w) := _load_metadata mfile w in
  ({| cache_dir := dir; metadata_file := mfile; metadata := m;
      max_cache_size := 1024 * 1024 * 1024 |}, w).

(** [_save_metadata] (lines 41-47). *)
Definition _save_metadata (self : PSDFileCache) (w : World) : World :=
  match write w (metadata_file self) (json_dump (metadata self)) with
  | Ok w' => w'
  | Raise e => emit ERROR ("Failed to save cache metadata: " +:+ exc_msg e) w
  end.

(** [_get_file_hash] (lines 49-64): the three [update] calls feed the
    hasher the concatenation of the path, [str(size)] and [str(mtime)]. *)
Definition _get_file_hash (w : World) (filepath : string) : result string :=
  match stat w filepath with
  | Raise e => Raise e
  | Ok st =>
      Ok (md5_hexdigest
            (filepath +:+ pretty (st_size st) +:+ pretty (st_mtime st)))
  end.

(** [get_cache_path] (lines 66-78). *)
Definition get_cache_path (self : PSDFileCache) (w : World)
    (filepath suffix : string) : result string :=
  match _get_file_hash w filepath with
  | Raise e => Raise e
  | Ok file_hash =>
      Ok (path_join (cache_dir self) (file_hash +:+ suffix +:+ ".png"))
  end.

(** [os.path.getmtime] *)
Definition getmtime (w : World) (path : string) : result Z :=
  match stat w path with
  | Ok f => Ok (st_mtime f)
  | Raise e => Raise e
  end.

(** [get_cached_image] (lines 80-110). *)
Definition get_cached_image (self : PSDFileCache) (w : World)
    (filepath suffix : string) : World * result (option Image) :=
  match get_cache_path self w filepath suffix with
  | Raise e => (w, Raise e)
  | Ok cpath =>
      if negb (exists_ w cpath) then (w, Ok None)
      else
        match getmtime w filepath with
        | Raise e => (w, Raise e)
        | Ok source_mtime =>
            match stat w cpath with
            | Raise e => (w, Raise e)
            | Ok cfile =>
                if st_mtime cfile <? source_mtime then
                  match remove w cpath with
                  | Ok w' => (w', Ok None)
                  | Raise e =>
                      (emit WARNING ("Failed to remove stale cache " +:+ cpath
                                     +:+ ": " +:+ exc_msg e) w, Ok None)
                  end
                else
                  match Image_open (f_content cfile) with
                  | Ok img => (w, Ok (Some img))
                  | Raise e =>
                      (emit WARNING ("Failed to load cached image " +:+ cpath
                                     +:+ ": " +:+ exc_msg e) w, Ok None)
                  end
            end
        end
  end.

(** The suffixes an eviction candidate may have (line 157). *)
Definition is_candidate (path : string) : bool :=
  bool_decide (path_suffix path ∈ [".png"; ".jpg"; ".jpeg"]).

(** [sum(f.stat().st_size for f in glob if f.is_file())] (line 149). *)
Definition total_size (w : World) (dir : string) : Z :=
  foldr (λ pf acc, st_size pf.2 + acc) 0 (glob_files w dir).

(** The list built by lines 155-158. *)
Definition candidates (w : World) (dir : string) : list (string * Z) :=
  (λ pf, (pf.1, st_atime pf.2)) <$>
    List.filter (λ pf, is_candidate pf.1) (glob_files w dir).

(** [files.sort(key=lambda x: x[1])]: a stable sort on the access time. *)
Fixpoint insert_by_atime (x : string * Z) (l : list (string * Z))
  : list (string * Z) :=
  match l with
  | [] => [x]
  | y :: l' => if x.2 <=? y.2 then x :: l else y :: insert_by_atime x l'
  end.

Definition sort_by_atime (l : list (string * Z)) : list (string * Z) :=
  foldr insert_by_atime [] l.

(** The deletion loop (lines 163-171). *)
Fixpoint sweep (limit : Z) (files : list (string * Z)) (total : Z) (w : World)
  : World :=
  match files with
  | [] => w
  | (f, _) :: rest =>
      if total <=? limit then w
      else
        match stat w f with
        | Raise e =>
            sweep limit rest total
              (emit WARNING ("Failed to clean up cache file " +:+ f +:+ ": "
                             +:+ exc_msg e) w)
        | Ok st =>
            match remove w f with
            | Raise e =>
                sweep limit rest total
                  (emit WARNING ("Failed to clean up cache file " +:+ f +:+ ": "
                                 +:+ exc_msg e) w)
            | Ok w' => sweep limit rest (total - st_size st) w'
            end
        end
  end.

(** [_cleanup_cache] (lines 145-174).  No call outside the loop can raise
    on a listed file, so the outer handler has nothing to catch. *)
Definition _cleanup_cache (self : PSDFileCache) (w : World) : World :=
  let total := total_size w (cache_dir self) in
  if total <=? max_cache_size self then w
  else sweep (max_cache_size self)
         (sort_by_atime (candidates w (cache_dir self))) total w.

(** [save_image_to_cache] (lines 112-143).  [mkdir(parents=True,
    exist_ok=True)] has no effect in a file system without directory
    entries; an encoder failure leaves the file system as it was. *)
Definition save_image_to_cache (self : PSDFileCache) (w : World)
    (image : Image) (filepath suffix : string) : PSDFileCache * World :=
  let failed (e : exn) (self : PSDFileCache) (w : World) :=
    (self, emit ERROR ("Failed to save image to cache: " +:+ exc_msg e) w) in
  match get_cache_path self w filepath suffix with
  | Raise e => failed e self w
  | Ok cpath =>
      match png_encode image with
      | Raise e => failed e self w
      | Ok data =>
          match write w cpath data with
          | Raise e => failed e self w
          | Ok w1 =>
              match _get_file_hash w1 filepath with
              | Raise e => failed e self w1
              | Ok file_hash =>
                  match stat w1 cpath with
                  | Raise e => failed e self w1
                  | Ok cfile =>
                      let self1 :=
                        set_metadata self
                          (<[file_hash +:+ suffix :=
                               {| meta_source_path := filepath;
                                  meta_cache_path := cpath;
                                  meta_size := st_size cfile;
                                  meta_created_at := clock w1;
                                  meta_last_accessed := clock w1 |}]>
                             (metadata self)) in
                      let w2 := _save_metadata self1 w1 in
                      (self1, _cleanup_cache self1 w2)
                  end
              end
          end
      end
  end.

(** In the specification's words: the bytes that the files of the list
    [files] occupy in the file system [m]. *)
Definition size_in (m : gmap string File) (p : string) : Z :=
  from_option st_size 0 (m !! p).

Definition sizes (m : gmap string File) (files : list (string * Z)) : Z :=
  foldr (λ x acc, size_in m x.1 + acc) 0 files.

End Cache.
End Cache.

(** ** [src/rendering.py]: the composite generator *)

Module Rendering.
Import OS Cache.
Section Rendering.
Context `{Externals}.

(** What calling a method of the parser's objects does: it raises, it
    returns [None] (or another falsy value), or it returns a bitmap. *)
Definition Outcome : Type := result (option Image).

(** A layer of the parsed document.  An [option] field is an attribute
    the object may lack; [layer_topil] is [None] when the layer has no
    callable [topil]; [layer_children] is [Some] for a group. *)
#[warnings="-register-all"]
Inductive Layer := mkLayer {
  layer_name : option string;
  layer_visible : option bool;
  layer_topil : option Outcome;
  layer_left : option Z;
  layer_top : option Z;
  layer_width : option Z;
  layer_height : option Z;
  layer_children : option (list Layer);
}.

Record Header := { header_width : option Z; header_height : option Z }.

(** The parsed document object the renderer is given. *)
Record PSD := {
  psd_type_name : string;
  psd_composite : option Outcome;
  psd_topil : option Outcome;
  psd_get_composite_image : option Outcome;
  psd_layers : option (list Layer);
  psd_header : option Header;
  psd_width : option Z;
  psd_height : option Z;
}.

Definition present {A} (o : option A) : bool :=
  match o with Some _ => true | None => false end.

(** [hasattr(psd, name)] *)
Definition hasattr (psd : PSD) (name : string) : bool :=
  if String.eqb name "composite" then present (psd_composite psd)
  else if String.eqb name "topil" then present (psd_topil psd)
  else if String.eqb name "get_composite_image"
       then present (psd_get_composite_image psd)
  else if String.eqb name "layers" then present (psd_layers psd)
  else if String.eqb name "header" then present (psd_header psd)
  else if String.eqb name "width" then present (psd_width psd)
  else if String.eqb name "height" then present (psd_height psd)
  else false.

(** [obj.attr()] for a method that may be missing. *)
Definition call (attr : string) (m : option Outcome) : Outcome :=
  match m with
  | Some r => r
  | None => Raise (AttributeError attr)
  end.

(** One entry of [try_methods] (lines 47-51): the label, the
    [__name__] of the function object stored next to it, and what calling
    that function does.  Each function is a [lambda], and the [__name__]
    of a lambda is ["<lambda>"]. *)
Record Strategy := {
  method_name : string;
  method___name__ : string;
  method : Outcome;
}.

Definition try_methods (psd : PSD) : list Strategy :=
  [ {| method_name := "psd.composite()"; method___name__ := "<lambda>";
       method := call "composite" (psd_composite psd) |};
    {| method_name := "psd.topil()"; method___name__ := "<lambda>";
       method := call "topil" (psd_topil psd) |};
    {| method_name := "psd.get_composite_image()"; method___name__ := "<lambda>";
       method := call "get_composite_image" (psd_get_composite_image psd) |} ].

(** The local variables of [_generate_composite] that the loops update. *)
Record Locals := {
  composite : option Image;
  methods_tried : list string;
  world : World;
}.

(** The loop over [try_methods] (lines 53-63). *)
Fixpoint builtin_loop (psd : PSD) (ms : list Strategy) (st : Locals) : Locals :=
  match ms with
  | [] => st
  | m :: rest =>
      if hasattr psd (split_last "." (method___name__ m)) then
        match method m with
        | Raise e =>
            builtin_loop psd rest
              {| composite := composite st;
                 methods_tried :=
                   methods_tried st ++ [method_name m +:+ " failed: " +:+ exc_msg e];
                 world := emit WARNING (method_name m +:+ " failed: " +:+ exc_msg e)
                            (world st) |}
        | Ok None =>
            builtin_loop psd rest
              {| composite := None; methods_tried := methods_tried st;
                 world := world st |}
        | Ok (Some img) =>
            {| composite := Some img;
               methods_tried := methods_tried st ++ [method_name m];
               world := emit DEBUG ("Success with " +:+ method_name m) (world st) |}
        end
      else builtin_loop psd rest st
  end.

(** [getattr(obj, attr, None) or fallback] on an integer attribute. *)
Definition attr_or (a : option Z) (fallback : Z) : Z :=
  match a with
  | Some z => or_int z fallback
  | None => fallback
  end.

(** Lines 68-77: the canvas size, or the exception that ends the manual
    path. *)
Definition dimensions (psd : PSD) (layers : list Layer) : result (Z * Z) :=
  match psd_header psd with
  | None => Raise (AttributeError "header")
  | Some hd =>
      let width := attr_or (header_width hd) (default 0 (psd_width psd)) in
      let height := attr_or (header_height hd) (default 0 (psd_height psd)) in
      '(width, height) ←
        (if negb (truthy_int width) || negb (truthy_int height) then
           match layers with
           | first_layer :: _ =>
               Ok (default 0 (layer_width first_layer),
                   default 0 (layer_height first_layer))
           | [] => Raise (Exn "IndexError" "list index out of range")
           end
         else Ok (width, height));
      if negb (truthy_int width) || negb (truthy_int height)
      then Raise (Exn "ValueError" "Unable to determine image dimensions")
      else Ok (width, height)
  end.

(** The body of the inner [try] (lines 84-88): [Ok None] when nothing was
    painted, [Ok (Some c)] with the canvas after [alpha_composite]. *)
Definition paint_layer (canvas : Image) (layer : Layer) : result (option Image) :=
  match layer_topil layer with
  | None => Ok None
  | Some r =>
      layer_img ← r;
      match layer_img with
      | None => Ok None
      | Some layer_img =>
          left ← match layer_left layer with
                 | Some z => Ok z | None => Raise (AttributeError "left") end;
          top ← match layer_top layer with
                | Some z => Ok z | None => Raise (AttributeError "top") end;
          canvas' ← alpha_composite canvas layer_img (left, top);
          Ok (Some canvas')
      end
  end.

Definition name_of (layer : Layer) : string :=
  default "unnamed" (layer_name layer).

(** The loop over [enumerate(reversed(self.psd.layers))] (lines 81-90);
    [ls] is the reversed list and [i] the index of its head. *)
Fixpoint compose_layers (i : nat) (ls : list Layer) (canvas : Image) (w : World)
  : Image * World :=
  match ls with
  | [] => (canvas, w)
  | layer :: rest =>
      if default true (layer_visible layer) then
        match paint_layer canvas layer with
        | Ok (Some canvas') =>
            compose_layers (S i) rest canvas'
              (emit DEBUG ("Layer " +:+ pretty i +:+ " composited: "
                           +:+ name_of layer) w)
        | Ok None => compose_layers (S i) rest canvas w
        | Raise e =>
            compose_layers (S i) rest canvas
              (emit WARNING ("Layer " +:+ pretty i +:+ " error ("
                             +:+ name_of layer +:+ "): " +:+ exc_msg e) w)
        end
      else compose_layers (S i) rest canvas w
  end.

(** Lines 68-79: the transparent canvas, or the exception that ends the
    manual path. *)
Definition blank_canvas (psd : PSD) (layers : list Layer) : result Image :=
  '(width, height) ← dimensions psd layers;
  Image_new "RGBA" (width, height) [0; 0; 0; 0].

(** The manual path (lines 66-94), entered with a non-empty [layers]. *)
Definition manual_composition (psd : PSD) (layers : list Layer) (st : Locals)
  : Locals :=
  let w := emit DEBUG "Attempting manual layer composition" (world st) in
  match blank_canvas psd layers with
  | Raise e =>
      {| composite := composite st;
         methods_tried :=
           methods_tried st ++ ["manual composition failed: " +:+ exc_msg e];
         world := emit ERROR ("Manual composition failed: " +:+ exc_msg e) w |}
  | Ok canvas =>
      let '(canvas, w) := compose_layers 0 (rev layers) canvas w in
      {| composite := Some canvas;
         methods_tried := methods_tried st ++ ["manual layer composition"];
         world := w |}
  end.

(** In the specification's words: the canvas after alpha-compositing, in
    the order of [ls], every layer that is visible and renders to a
    bitmap, at its (left, top) offset; a layer that is hidden, has no
    bitmap or fails to render is left out. *)
Fixpoint alpha_composited (ls : list Layer) (canvas : Image) : Image :=
  match ls with
  | [] => canvas
  | layer :: rest =>
      alpha_composited rest
        (if default true (layer_visible layer) then
           match paint_layer canvas layer with
           | Ok (Some canvas') => canvas'
           | _ => canvas
           end
         else canvas)
  end.

(** The text the placeholder shows (line 103). *)
Definition placeholder_text (tried : list string) : string :=
  "Failed to load PSD file." +:+ nl +:+ nl +:+ "Tried methods:" +:+ nl
  +:+ join nl ((λ m, "- " +:+ m) <$> tried).

(** The loop of lines 104-105; [i] is the index of the head of [lines]. *)
Fixpoint draw_lines (img : Image) (font : Font) (i : nat) (lines : list string)
  : result Image :=
  match lines with
  | [] => Ok img
  | line :: rest =>
      img' ← draw_text img (10, 10 + Z.of_nat i * 20) line [200; 0; 0] font;
      draw_lines img' font (S i) rest
  end.

(** The inner [try] of the fallback tier (lines 100-106). *)
Definition placeholder (tried : list string) : result Image :=
  img ← Image_new "RGB" (800, 200) [255; 200; 200];
  _ ← ImageDraw_Draw img;
  font ← ImageFont_load_default;
  draw_lines img font 0 (split LF (placeholder_text tried)).

(** [PSDFullRenderer]'s own fields.  [self.psd] is a reference to the
    document object, which the document model and its views hold too and
    mutate in place: the object lives in the enclosing state and every
    method that dereferences [self.psd] is given it. *)
Record Callback := { cb_name : string; cb_raises : option exn }.

Record PSDFullRenderer := {
  filepath : option string;
  _composite : option Image;
  _loading : bool;
  _callbacks : list Callback;
}.

(** [_generate_composite] (lines 41-118), on the process-wide
    [psd_cache] and the world. *)
Definition _generate_composite (psd : PSD) (self : PSDFullRenderer)
    (cache : PSDFileCache) (w : World)
  : PSDFileCache * World * result Image :=
  let w := emit DEBUG ("Generating composite for PSD: " +:+ psd_type_name psd) w in
  let st := builtin_loop psd (try_methods psd)
              {| composite := None; methods_tried := []; world := w |} in
  let st :=
    match composite st, psd_layers psd with
    | None, Some (l :: ls) => manual_composition psd (l :: ls) st
    | _, _ => st
    end in
  match composite st with
  | None =>
      let error_msg := "Could not generate composite. Tried methods: "
                       +:+ join ", " (methods_tried st) in
      let w := emit ERROR error_msg (world st) in
      match placeholder (methods_tried st) with
      | Ok img => (cache, w, Ok img)
      | Raise fallback_error =>
          (cache,
           emit ERROR ("Failed to create error placeholder: "
                       +:+ exc_msg fallback_error) w,
           Raise (Exn "ValueError" error_msg))
      end
  | Some img =>
      match filepath self with
      | Some (String a path) =>
          let '(cache, w) :=
            save_image_to_cache cache (world st) img (String a path) "_full" in
          (cache, w, Ok img)
      | _ => (cache, world st, Ok img)
      end
  end.

(** [__init__] (lines 25-39). *)
Definition init (psd : PSD) (path : option string)
    (cache : PSDFileCache) (w : World) : PSDFullRenderer * World :=
  let fresh := {| filepath := path; _composite := None; _loading := false;
                  _callbacks := [] |} in
  match path with
  | Some (String a p) =>
      if hasattr psd "composite" then
        match get_cached_image cache w (String a p) "_full" with
        | (w, Ok (Some cached)) =>
            ({| filepath := path; _composite := Some cached; _loading := false;
                _callbacks := [] |}, w)
        | (w, Ok None) => (fresh, w)
        | (w, Raise e) =>
            (fresh, emit WARNING ("Failed to load from cache: " +:+ exc_msg e) w)
        end
      else (fresh, w)
  | _ => (fresh, w)
  end.

(** ** The renderer and its worker thread

    The state of one renderer in its process: the shared document object,
    the cache singleton, the world, the renderer's fields, the worker
    threads started and still running, and the callback invocations made
    so far (oldest first). *)
Record System := {
  sys_psd : PSD;
  sys_cache : PSDFileCache;
  sys_world : World;
  sys_renderer : PSDFullRenderer;
  sys_started : nat;
  sys_running : nat;
  sys_invoked : list (Callback * Image);
}.

(** The loop of [_on_composite_ready] (lines 123-127). *)
Fixpoint invoke_all (cbs : list Callback) (img : Image)
    (invoked : list (Callback * Image)) (w : World)
  : list (Callback * Image) * World :=
  match cbs with
  | [] => (invoked, w)
  | cb :: rest =>
      let w := match cb_raises cb with
               | None => w
               | Some e => emit ERROR ("Error in callback " +:+ cb_name cb +:+ ": "
                                       +:+ exc_msg e) w
               end in
      invoke_all rest img (invoked ++ [(cb, img)]) w
  end.

(** [_on_composite_ready] (lines 120-128). *)
Definition _on_composite_ready (img : Image) (s : System) : System :=
  let r := sys_renderer s in
  let '(invoked, w) := invoke_all (_callbacks r) img (sys_invoked s) (sys_world s) in
  {| sys_psd := sys_psd s; sys_cache := sys_cache s; sys_world := w;
     sys_renderer := {| filepath := filepath r; _composite := Some img;
                        _loading := false; _callbacks := [] |};
     sys_started := sys_started s; sys_running := sys_running s;
     sys_invoked := invoked |}.

Definition set_renderer (s : System) (r : PSDFullRenderer) : System :=
  {| sys_psd := sys_psd s; sys_cache := sys_cache s; sys_world := sys_world s;
     sys_renderer := r; sys_started := sys_started s;
     sys_running := sys_running s; sys_invoked := sys_invoked s |}.

(** [get_composite_image] (lines 130-144); [threading.Thread(...).start()]
    adds one running worker. *)
Definition get_composite_image (callback : option Callback) (s : System)
  : System * option Image :=
  let r := sys_renderer s in
  match _composite r with
  | Some img => (s, Some img)
  | None =>
      let cbs := match callback with
                 | Some cb => _callbacks r ++ [cb]
                 | None => _callbacks r
                 end in
      if negb (_loading r) then
        ({| sys_psd := sys_psd s; sys_cache := sys_cache s;
            sys_world := sys_world s;
            sys_renderer := {| filepath := filepath r; _composite := None;
                               _loading := true; _callbacks := cbs |};
            sys_started := S (sys_started s);
            sys_running := S (sys_running s);
            sys_invoked := sys_invoked s |}, None)
      else
        (set_renderer s {| filepath := filepath r; _composite := None;
                           _loading := _loading r; _callbacks := cbs |}, None)
  end.

(** The thread's target, [lambda: self._on_composite_ready(
    self._generate_composite())], run to its end.  There is no handler in
    it: when [_generate_composite] raises, the exception leaves the target
    and the thread ends without calling [_on_composite_ready]. *)
Definition worker (s : System) : System :=
  let '(cache, w, r) :=
    _generate_composite (sys_psd s) (sys_renderer s) (sys_cache s) (sys_world s) in
  let s' := {| sys_psd := sys_psd s; sys_cache := cache; sys_world := w;
               sys_renderer := sys_renderer s; sys_started := sys_started s;
               sys_running := pred (sys_running s);
               sys_invoked := sys_invoked s |} in
  match r with
  | Ok img => _on_composite_ready img s'
  | Raise _ => s'
  end.

(** The states of the specification's state machine, read off the
    renderer's fields. *)
Inductive phase := Idle | Generating | Ready.

Definition phase_of (r : PSDFullRenderer) : phase :=
  match _composite r with
  | Some _ => Ready
  | None => if _loading r then Generating else Idle
  end.

(** Serial runs.  What can happen to a renderer when a call and a
    completion do not overlap: a request that runs from line 131 to its
    return, or a running worker that runs from the start of its target to
    its end, each without a step of the other thread in between.  As long
    as no worker is running these are all the runs there are.  The runs in
    which a call and a completing worker interleave are those of [Threads]
    below: every serial step is a schedule there, and without a worker
    every schedule is serial ([ThreadProofs]). *)
Inductive event := Request (callback : option Callback) | Finish.

Inductive step : System → event → System → Prop :=
| step_request s callback :
    step s (Request callback) (get_composite_image callback s).1
| step_finish s :
    (0 < sys_running s)%nat → step s Finish (worker s).

Inductive steps : System → list event → System → Prop :=
| steps_nil s : steps s [] s
| steps_cons s e s' es s'' :
    step s e s' → steps s' es s'' → steps s (e :: es) s''.

(** [requests cbs s]: the calls [get_composite_image(cb)] for [cb] in
    [cbs], one after the other; the results are returned oldest first. *)
Fixpoint requests (cbs : list Callback) (s : System) : System * list (option Image) :=
  match cbs with
  | [] => (s, [])
  | cb :: rest =>
      let '(s, r) := get_composite_image (Some cb) s in
      let '(s, rs) := requests rest s in
      (s, r :: rs)
  end.

End Rendering.
End Rendering.

(** ** [src/models/psd.py]: [PSDDocument.set_layer_visibility] *)

Module Document.
Import OS Cache Rendering.
Section Document.
Context `{Externals}.

(** The fields of [PSDDocument] the rendering core reads ([current_scale]
    and the Tk images of [layer_images] belong to the view).  [psd] and the
    renderer's [self.psd] are one object. *)
Record PSDDocument := {
  doc_filepath : option string;
  psd : option PSD;
  _renderer : option PSDFullRenderer;
  _render_mode : string;
}.

(** [for x in xs: if f(x): return True] followed by [return False], where
    [f] may update [x] in place and may raise. *)
Definition first_hit {A} (f : A → result (bool * A))
  : list A → result (bool * list A) :=
  fix go (xs : list A) : result (bool * list A) :=
    match xs with
    | [] => Ok (false, [])
    | x :: rest =>
        '(hit, x') ← f x;
        if (hit : bool) then Ok (true, x' :: rest)
        else '(hit', rest') ← go rest; Ok (hit', x' :: rest')
    end.

(** The local function [set_visibility] (lines 205-213); [is_group()] is
    true for a layer that has children to iterate. *)
Fixpoint set_visibility (layer : Layer) (name : string) (is_visible : bool)
  : result (bool * Layer) :=
  match layer with
  | mkLayer lname vis topil x y width height children =>
      match lname with
      | None => Raise (AttributeError "name")
      | Some n =>
          if String.eqb n name
          then Ok (true, mkLayer lname (Some is_visible) topil x y
                           width height children)
          else
            match children with
            | Some cs =>
                '(hit, cs') ← first_hit (λ child, set_visibility child name is_visible) cs;
                Ok (hit, mkLayer lname vis topil x y width height (Some cs'))
            | None => Ok (false, layer)
            end
      end
  end.

Definition set_layers (p : PSD) (ls : option (list Layer)) : PSD :=
  {| psd_type_name := psd_type_name p; psd_composite := psd_composite p;
     psd_topil := psd_topil p;
     psd_get_composite_image := psd_get_composite_image p;
     psd_layers := ls; psd_header := psd_header p;
     psd_width := psd_width p; psd_height := psd_height p |}.

(** [set_layer_visibility] (lines 200-219).  Iterating the document
    yields its top-level layers, the objects [psd.layers] lists. *)
Definition set_layer_visibility (self : PSDDocument) (layer_name : string)
    (visible : bool) : result (bool * PSDDocument) :=
  match psd self with
  | None => Ok (false, self)
  | Some p =>
      '(hit, ls') ← first_hit (λ layer, set_visibility layer layer_name visible)
                      (default [] (psd_layers p));
      Ok (hit, {| doc_filepath := doc_filepath self;
                  psd := Some (set_layers p (fmap (λ _, ls') (psd_layers p)));
                  _renderer := _renderer self;
                  _render_mode := _render_mode self |})
  end.

(** The renderer's state after the shared document object has been
    mutated in place into [p]. *)
Definition with_psd (s : System) (p : PSD) : System :=
  {| sys_psd := p; sys_cache := sys_cache s; sys_world := sys_world s;
     sys_renderer := sys_renderer s; sys_started := sys_started s;
     sys_running := sys_running s; sys_invoked := sys_invoked s |}.

(** Every layer of a tree, parents before children, and of a forest. *)
Fixpoint preorder (layer : Layer) : list Layer :=
  match layer with
  | mkLayer _ _ _ _ _ _ _ children =>
      layer :: match children with
               | Some cs => flat_map preorder cs
               | None => []
               end
  end.

Definition all_layers (p : PSD) : list Layer :=
  flat_map preorder (default [] (psd_layers p)).

(** A layer without its visibility flag, at every depth. *)
Fixpoint erase_visible (layer : Layer) : Layer :=
  match layer with
  | mkLayer lname _ topil x y width height children =>
      mkLayer lname None topil x y width height (fmap (map erase_visible) children)
  end.

End Document.
End Document.

(** ** The two threads, statement by statement

    [get_composite_image] runs on the thread of its caller, the interface
    thread; [_generate_composite] and [_on_composite_ready] run on the
    worker thread the call started.  The renderer has no lock, and the
    interpreter may switch threads between any two statements.  Here every
    statement that reads or writes a field of the renderer is a step of its
    own, and a run is any interleaving of the steps of the threads. *)

Module Threads.
Import OS Cache Rendering.
Section Threads.
Context `{Externals}.

(** The line a call of [get_composite_image] executes next. *)
Inductive call_pc := L131 | L132 | L134 | L137 | L138 | L139 | L144.

(** Where a worker stands in its target: about to call
    [_generate_composite]; in [_on_composite_ready] with the composite it
    was given, before line 121, before line 122, in the loop of line 123
    with its iterator at index [i], or before line 128; or at its end. *)
Inductive worker_pc :=
| Generate
| L121 (composite : Image)
| L122 (composite : Image)
| L123 (composite : Image) (i : nat)
| L128
| Ended.

(** The process: the shared objects with the counters of [System], the
    call the interface thread is in (with its [callback] argument), the
    values returned by the calls that have returned (oldest first), and
    the worker threads in the order they were started. *)
Record Process := {
  shared : System;
  call : option (option Callback * call_pc);
  returned : list (option Image);
  workers : list worker_pc;
}.

(** A process in which no call is in progress and no worker exists. *)
Definition at_rest (s : System) : Process :=
  {| shared := s; call := None; returned := []; workers := [] |}.

Definition set_fields (s : System) (composite : option Image) (loading : bool)
    (callbacks : list Callback) : System :=
  set_renderer s {| filepath := filepath (sys_renderer s); _composite := composite;
                    _loading := loading; _callbacks := callbacks |}.

(** One statement of the call in progress. *)
Definition interface_step (t : Process) : option Process :=
  match call t with
  | None => None
  | Some (callback, pc) =>
      let s := shared t in
      let r := sys_renderer s in
      let goto pc' s' :=
        Some {| shared := s'; call := Some (callback, pc');
                returned := returned t; workers := workers t |} in
      let ret v :=
        Some {| shared := s; call := None; returned := returned t ++ [v];
                workers := workers t |} in
      match pc with
      | L131 => if present (_composite r) then goto L132 s else goto L134 s
      | L132 => ret (_composite r)
      | L134 =>
          match callback with
          | Some cb =>
              goto L137 (set_fields s (_composite r) (_loading r)
                           (_callbacks r ++ [cb]))
          | None => goto L137 s
          end
      | L137 => if negb (_loading r) then goto L138 s else goto L144 s
      | L138 => goto L139 (set_fields s (_composite r) true (_callbacks r))
      | L139 =>
          Some {| shared :=
                    {| sys_psd := sys_psd s; sys_cache := sys_cache s;
                       sys_world := sys_world s; sys_renderer := r;
                       sys_started := S (sys_started s);
                       sys_running := S (sys_running s);
                       sys_invoked := sys_invoked s |};
                  call := Some (callback, L144); returned := returned t;
                  workers := workers t ++ [Generate] |}
      | L144 => ret None
      end
  end.

(** The end of a worker thread. *)
Definition ended (s : System) : System :=
  {| sys_psd := sys_psd s; sys_cache := sys_cache s; sys_world := sys_world s;
     sys_renderer := sys_renderer s; sys_started := sys_started s;
     sys_running := pred (sys_running s); sys_invoked := sys_invoked s |}.

(** One statement of worker [i].  [_generate_composite] touches no field
    that [get_composite_image] reads or writes and is one step; an
    exception it raises ends the thread.  One turn of the loop calls the
    callback the iterator is at, which is the element at its index in the
    list as the list is then. *)
Definition worker_step (i : nat) (t : Process) : option Process :=
  match workers t !! i with
  | None => None
  | Some pc =>
      let s := shared t in
      let r := sys_renderer s in
      let goto pc' s' :=
        Some {| shared := s'; call := call t; returned := returned t;
                workers := <[i := pc']> (workers t) |} in
      match pc with
      | Generate =>
          let '(cache, w, result) :=
            _generate_composite (sys_psd s) r (sys_cache s) (sys_world s) in
          let s' := {| sys_psd := sys_psd s; sys_cache := cache; sys_world := w;
                       sys_renderer := r; sys_started := sys_started s;
                       sys_running := sys_running s;
                       sys_invoked := sys_invoked s |} in
          match result with
          | Ok img => goto (L121 img) s'
          | Raise _ => goto Ended (ended s')
          end
      | L121 img => goto (L122 img) (set_fields s (Some img) (_loading r) (_callbacks r))
      | L122 img => goto (L123 img 0) (set_fields s (_composite r) false (_callbacks r))
      | L123 img k =>
          match _callbacks r !! k with
          | Some cb =>
              let '(invoked, w) :=
                invoke_all [cb] img (sys_invoked s) (sys_world s) in
              goto (L123 img (S k))
                {| sys_psd := sys_psd s; sys_cache := sys_cache s; sys_world := w;
                   sys_renderer := r; sys_started := sys_started s;
                   sys_running := sys_running s; sys_invoked := invoked |}
          | None => goto L128 s
          end
      | L128 => goto Ended (ended (set_fields s (_composite r) (_loading r) []))
      | Ended => None
      end
  end.

(** What the scheduler can do next: let the interface thread enter a call
    (when it is in none), let it execute one statement, or let a worker
    execute one. *)
Inductive action :=
| Call (callback : option Callback)
| Interface
| Worker (i : nat).

Definition act (a : action) (t : Process) : option Process :=
  match a with
  | Call callback =>
      match call t with
      | None => Some {| shared := shared t; call := Some (callback, L131);
                        returned := returned t; workers := workers t |}
      | Some _ => None
      end
  | Interface => interface_step t
  | Worker i => worker_step i t
  end.

(** A schedule, played from [t]; [None] when it asks for a step that is
    not there. *)
Fixpoint play (schedule : list action) (t : Process) : option Process :=
  match schedule with
  | [] => Some t
  | a :: rest =>
      match act a t with
      | Some t' => play rest t'
      | None => None
      end
  end.

(** A thread left alone: [a] repeated for as long as it has a step, at
    most [n] times. *)
Fixpoint alone (n : nat) (a : action) (t : Process) : Process :=
  match n with
  | O => t
  | S n =>
      match act a t with
      | Some t' => alone n a t'
      | None => t
      end
  end.

End Threads.
End Threads.

(** ** [src/rendering.py]: [PSDLightRenderer] *)

Module Light.
Import OS Cache Rendering.
Section Light.
Context `{Externals}.

(** Two more Pillow calls: the PNG writer as [composite.save(path,
    format='PNG')] runs it, without the optimize flag, and
    [Image.close()]. *)
Variable save_png : Image → result Blob.
Variable Image_close : Image → result unit.

(** The renderer's own fields; [self.psd] is the shared document object,
    as for the full renderer. *)
Record PSDLightRenderer := {
  preview_path : string;
  _png_image : option Image;
}.

(** [_convert_to_png] (lines 154-162).  Calling [save] on [None] raises
    an [AttributeError]; an encoder failure leaves the file system as it
    was. *)
Definition _convert_to_png (psd : PSD) (self : PSDLightRenderer) (w : World)
  : PSDLightRenderer * World * result string :=
  let attempt : result (Image * World) :=
    composite ← call "composite" (psd_composite psd);
    match composite with
    | None => Raise (AttributeError "save")
    | Some img =>
        data ← save_png img;
        w' ← write w (preview_path self) data;
        Ok (img, w')
    end in
  match attempt with
  | Ok (img, w') =>
      ({| preview_path := preview_path self; _png_image := Some img |}, w',
       Ok (preview_path self))
  | Raise e =>
      (self, emit ERROR ("Error converting PSD to PNG: " +:+ exc_msg e) w, Raise e)
  end.

(** [get_composite_image] (lines 164-171). *)
Definition get_composite_image (psd : PSD) (self : PSDLightRenderer) (w : World)
  : PSDLightRenderer * World * result (option Image) :=
  match _png_image self with
  | Some img => (self, w, Ok (Some img))
  | None =>
      match _convert_to_png psd self w with
      | (self', w', Ok _) => (self', w', Ok (_png_image self'))
      | (self', w', Raise e) =>
          (self', emit ERROR ("Error in light rendering: " +:+ exc_msg e) w', Raise e)
      end
  end.

(** [cleanup] (lines 173-179). *)
Definition cleanup (self : PSDLightRenderer) (w : World)
  : PSDLightRenderer * World :=
  match _png_image self with
  | Some img =>
      match Image_close img with
      | Ok _ => ({| preview_path := preview_path self; _png_image := None |}, w)
      | Raise e =>
          (self, emit ERROR ("Error cleaning up PNG cache: " +:+ exc_msg e) w)
      end
  | None => (self, w)
  end.

End Light.
End Light.

(** ** A concrete instance of the external libraries

    Bitmaps are the terms built by the Pillow calls, a file holds a PNG, the
    metadata index or other bytes, and the "digest" of a string is the string
    itself.  [fonts] says whether [ImageFont.load_default] finds its font;
    [Image.new] rejects a negative size and [alpha_composite] a negative
    destination, as Pillow does. *)

Module Sample.
Import OS Cache Rendering Document.

Inductive picture :=
| Bitmap (id : nat) (width height : Z)
| New (mode : string) (width height : Z) (color : list Z)
| Over (canvas src : picture) (dest : Z * Z)
| Text (img : picture) (xy : Z * Z) (line : string) (fill : list Z).

Inductive contents :=
| Png (img : picture) (bytes : Z)
| Json (index : gmap string MetaEntry)
| Raw (bytes : Z).

Fixpoint png_bytes (img : picture) : Z :=
  match img with
  | Bitmap _ w h | New _ w h _ => 64 + 4 * w * h
  | Over canvas _ _ => png_bytes canvas
  | Text img _ _ _ => png_bytes img
  end.

Definition externals (fonts : bool) : Externals := {|
  Image := picture;
  Font := unit;
  Blob := contents;
  blob_size := λ b,
    match b with
    | Png _ n | Raw n => n
    | Json m => 2 + 200 * Z.of_nat (size m)
    end;
  Image_new := λ mode '(w, h) color,
    if (w <? 0) || (h <? 0)
    then Raise (Exn "ValueError" "Width and height must be >= 0")
    else Ok (New mode w h color);
  alpha_composite := λ canvas src '(x, y),
    if (x <? 0) || (y <? 0)
    then Raise (Exn "ValueError" "Destination must be non-negative")
    else Ok (Over canvas src (x, y));
  ImageDraw_Draw := λ _, Ok ();
  ImageFont_load_default :=
    if fonts then Ok () else Raise (Exn "OSError" "cannot open resource");
  draw_text := λ img xy line fill _, Ok (Text img xy line fill);
  png_encode := λ img, Ok (Png img (png_bytes img));
  Image_open := λ b,
    match b with
    | Png img _ => Ok img
    | _ => Raise (Exn "UnidentifiedImageError" "cannot identify image file")
    end;
  md5_hexdigest := λ s, s;
  json_dump := Json;
  json_load := λ b,
    match b with
    | Json m => Ok m
    | _ => Raise (Exn "JSONDecodeError" "Expecting value")
    end;
|}.

(** Pillow with its default font installed. *)
Definition pillow : Externals := externals true.

(** Pillow on a machine where the default font cannot be opened. *)
Definition headless : Externals := externals false.

Section Boot.
Context `{Externals}.

(** An empty file system at time 0, and the cache singleton created in
    it with the default directory. *)
Definition world0 : World := {| fs := ∅; clock := 0; log := [] |}.
Definition cache0 : PSDFileCache := (Cache.init "psd_cache" world0).1.

(** A renderer that was given no file path. *)
Definition renderer0 : PSDFullRenderer :=
  {| filepath := None; _composite := None; _loading := false; _callbacks := [] |}.

(** A process that has just built that renderer for [psd]. *)
Definition boot (psd : PSD) : System :=
  {| sys_psd := psd; sys_cache := cache0; sys_world := world0;
     sys_renderer := renderer0; sys_started := 0; sys_running := 0;
     sys_invoked := [] |}.

(** A document object that offers nothing the generator looks for. *)
Definition bare_psd : PSD := {|
  psd_type_name := "Document";
  psd_composite := None;
  psd_topil := None;
  psd_get_composite_image := None;
  psd_layers := None;
  psd_header := None;
  psd_width := None;
  psd_height := None;
|}.

(** Two callbacks of a view; the second belongs to a window that has been
    closed and raises when it is called. *)
Definition on_ready : Callback :=
  {| cb_name := "PSDView._on_composite_ready"; cb_raises := None |}.
Definition on_ready_closed : Callback :=
  {| cb_name := "InfoView.refresh";
     cb_raises := Some (Exn "TclError" "invalid command name") |}.

End Boot.

#[local] Existing Instance pillow.

(** A flattened document: the parser offers [composite()] and [topil()],
    which return the same 640x480 bitmap, and there is no layer. *)
Definition flat_psd : PSD := {|
  psd_type_name := "PSDImage";
  psd_composite := Some (Ok (Some (Bitmap 1 640 480)));
  psd_topil := Some (Ok (Some (Bitmap 1 640 480)));
  psd_get_composite_image := None;
  psd_layers := Some [];
  psd_header := Some {| header_width := Some 640; header_height := Some 480 |};
  psd_width := Some 640;
  psd_height := Some 480;
|}.

(** A document of three layers, listed top first; the parser cannot
    render the middle one. *)
Definition title_layer : Layer := {|
  layer_name := Some "title"; layer_visible := Some true;
  layer_topil := Some (Ok (Some (Bitmap 3 2 2)));
  layer_left := Some 1; layer_top := Some 1;
  layer_width := Some 2; layer_height := Some 2; layer_children := None |}.

Definition smart_layer : Layer := {|
  layer_name := Some "smart object"; layer_visible := Some true;
  layer_topil := Some (Raise (Exn "ValueError" "Unsupported smart object"));
  layer_left := Some 0; layer_top := Some 0;
  layer_width := Some 4; layer_height := Some 4; layer_children := None |}.

Definition background_layer : Layer := {|
  layer_name := Some "background"; layer_visible := Some true;
  layer_topil := Some (Ok (Some (Bitmap 2 4 4)));
  layer_left := Some 0; layer_top := Some 0;
  layer_width := Some 4; layer_height := Some 4; layer_children := None |}.

Definition layered_psd : PSD := {|
  psd_type_name := "PSDImage";
  psd_composite := Some (Raise (Exn "ValueError" "Unsupported smart object"));
  psd_topil := None;
  psd_get_composite_image := None;
  psd_layers := Some [title_layer; smart_layer; background_layer];
  psd_header := Some {| header_width := Some 4; header_height := Some 4 |};
  psd_width := Some 4;
  psd_height := Some 4;
|}.

(** A document object with none of the three accessors, whose only layer
    has no size, under a header without one. *)
Definition sizeless_psd : PSD := {|
  psd_type_name := "Document";
  psd_composite := None;
  psd_topil := None;
  psd_get_composite_image := None;
  psd_layers := Some [ {| layer_name := Some "empty"; layer_visible := Some true;
                          layer_topil := None; layer_left := Some 0;
                          layer_top := Some 0; layer_width := Some 0;
                          layer_height := Some 0; layer_children := None |} ];
  psd_header := Some {| header_width := None; header_height := None |};
  psd_width := None;
  psd_height := None;
|}.

(** A document with a group: "logo" occurs inside the group and again
    below it. *)
Definition leaf (name : string) (visible : bool) (id : nat) : Layer := {|
  layer_name := Some name; layer_visible := Some visible;
  layer_topil := Some (Ok (Some (Bitmap id 4 4)));
  layer_left := Some 0; layer_top := Some 0;
  layer_width := Some 4; layer_height := Some 4; layer_children := None |}.

Definition header_group : Layer := {|
  layer_name := Some "header"; layer_visible := Some true;
  layer_topil := Some (Ok (Some (Bitmap 10 4 4)));
  layer_left := Some 0; layer_top := Some 0;
  layer_width := Some 4; layer_height := Some 4;
  layer_children := Some [leaf "caption" true 11; leaf "logo" true 12] |}.

Definition grouped_psd : PSD := {|
  psd_type_name := "PSDImage";
  psd_composite := None;
  psd_topil := None;
  psd_get_composite_image := None;
  psd_layers := Some [header_group; leaf "logo" true 13; leaf "paper" true 14];
  psd_header := Some {| header_width := Some 4; header_height := Some 4 |};
  psd_width := Some 4;
  psd_height := Some 4;
|}.

(** That document, opened, with a renderer that holds its composite. *)
Definition ready_renderer : PSDFullRenderer :=
  {| filepath := None; _composite := Some (Bitmap 20 4 4); _loading := false;
     _callbacks := [] |}.

Definition grouped_doc : PSDDocument := {|
  doc_filepath := Some "poster.psd";
  psd := Some grouped_psd;
  _renderer := Some ready_renderer;
  _render_mode := "full";
|}.

Definition grouped_system : System :=
  {| sys_psd := grouped_psd; sys_cache := cache0; sys_world := world0;
     sys_renderer := ready_renderer; sys_started := 1; sys_running := 0;
     sys_invoked := [] |}.

(** A source file of 1000 bytes written at time 50.  Its cache entry for
    the variant "_full" was written at time 40 by a machine whose clock runs
    behind, and another process holds that file open, so that the operating
    system refuses to remove it. *)
Definition poster : File :=
  {| f_content := Raw 1000; st_mtime := 50; st_atime := 50; f_locked := false |}.

Definition poster_entry : string := "psd_cache/poster.psd100050_full.png".

Definition held_entry : File :=
  {| f_content := Png (Bitmap 7 4 4) 128; st_mtime := 40; st_atime := 45;
     f_locked := true |}.

Definition held_world : World :=
  {| fs := {[ "poster.psd" := poster; poster_entry := held_entry ]};
     clock := 60; log := [] |}.

(** Cache entries of half a gibibyte each, last read at the given time,
    and the index file. *)
Definition half_gib : Z := 512 * 1024 * 1024.

Definition entry (id : nat) (atime : Z) : File :=
  {| f_content := Png (Bitmap id 4096 4096) half_gib; st_mtime := atime;
     st_atime := atime; f_locked := false |}.

Definition index_file : File :=
  {| f_content := Json ∅; st_mtime := 30; st_atime := 30; f_locked := false |}.

(** A cache of three entries: a gibibyte and a half, and the index. *)
Definition crowded_world : World :=
  {| fs := {[ "psd_cache/a_full.png" := entry 1 20;
              "psd_cache/b_full.png" := entry 2 10;
              "psd_cache/c_full.png" := entry 3 30;
              "psd_cache/metadata.json" := index_file ]};
     clock := 40; log := [] |}.

(** A cache whose two entries fill the budget to the byte; the index file
    tips it over. *)
Definition brimful_world : World :=
  {| fs := {[ "psd_cache/a_full.png" := entry 1 20;
              "psd_cache/b_full.png" := entry 2 10;
              "psd_cache/metadata.json" := index_file ]};
     clock := 40; log := [] |}.

(** The poster next to a cache whose only entry, two gibibytes last read
    at time 10, is held open by another process. *)
Definition album_entry : File :=
  {| f_content := Png (Bitmap 9 16384 16384) (4 * half_gib); st_mtime := 10;
     st_atime := 10; f_locked := true |}.

Definition album_world : World :=
  {| fs := {[ "poster.psd" := poster; "psd_cache/album_full.png" := album_entry ]};
     clock := 60; log := [] |}.

(** The poster alone, at time 60; and a poster whose modification time,
    200, lies ahead of the clock, 100 (it was written through a file server
    whose clock runs ahead). *)
Definition quiet_world : World :=
  {| fs := {[ "poster.psd" := poster ]}; clock := 60; log := [] |}.

Definition early_poster : File :=
  {| f_content := Raw 1000; st_mtime := 200; st_atime := 200; f_locked := false |}.

Definition early_world : World :=
  {| fs := {[ "poster.psd" := early_poster ]}; clock := 100; log := [] |}.

End Sample.

(** ** More sample data *)

Module SampleMore.
Import OS Cache Rendering Document Sample.
#[local] Existing Instance pillow.

(** A cache object whose index lists one entry. *)
Definition listed_cache : PSDFileCache :=
  {| cache_dir := "psd_cache"; metadata_file := "psd_cache/metadata.json";
     metadata := {[ "poster.psd100050_full"
                    := {| meta_source_path := "poster.psd";
                          meta_cache_path := poster_entry;
                          meta_size := 1228864; meta_created_at := 60;
                          meta_last_accessed := 60 |} ]};
     max_cache_size := 4096 |}.

(** A document whose two layers paint nothing: a hidden draft, and a
    guide layer without [topil]. *)
Definition guide_layer : Layer := {|
  layer_name := Some "guides"; layer_visible := Some true;
  layer_topil := None; layer_left := Some 0; layer_top := Some 0;
  layer_width := Some 4; layer_height := Some 4; layer_children := None |}.

Definition hidden_psd : PSD := {|
  psd_type_name := "PSDImage";
  psd_composite := None;
  psd_topil := None;
  psd_get_composite_image := None;
  psd_layers := Some [leaf "draft" false 30; guide_layer];
  psd_header := Some {| header_width := Some 4; header_height := Some 4 |};
  psd_width := Some 4;
  psd_height := Some 4;
|}.

(** The three-layer document without its title. *)
Definition untitled_psd : PSD := {|
  psd_type_name := "PSDImage";
  psd_composite := Some (Raise (Exn "ValueError" "Unsupported smart object"));
  psd_topil := None;
  psd_get_composite_image := None;
  psd_layers := Some [smart_layer; background_layer];
  psd_header := Some {| header_width := Some 4; header_height := Some 4 |};
  psd_width := Some 4;
  psd_height := Some 4;
|}.

(** A full renderer for the poster, and a light one that writes its
    preview next to it. *)
Definition poster_renderer : PSDFullRenderer :=
  {| filepath := Some "poster.psd"; _composite := None; _loading := false;
     _callbacks := [] |}.

Definition preview_renderer : Light.PSDLightRenderer :=
  {| Light.preview_path := "poster_preview.png"; Light._png_image := None |}.

(** The flattened document after an edit: [composite()] now returns
    another bitmap. *)
Definition edited_psd : PSD := {|
  psd_type_name := "PSDImage";
  psd_composite := Some (Ok (Some (Bitmap 5 640 480)));
  psd_topil := Some (Ok (Some (Bitmap 5 640 480)));
  psd_get_composite_image := None;
  psd_layers := Some [];
  psd_header := Some {| header_width := Some 640; header_height := Some 480 |};
  psd_width := Some 640;
  psd_height := Some 480;
|}.

(** The sample document after the caption in its group has been hidden. *)
Definition captionless_doc : PSDDocument := {|
  doc_filepath := Some "poster.psd";
  psd := Some (set_layers grouped_psd
                 (Some [ {| layer_name := Some "header";
                            layer_visible := Some true;
                            layer_topil := Some (Ok (Some (Bitmap 10 4 4)));
                            layer_left := Some 0; layer_top := Some 0;
                            layer_width := Some 4; layer_height := Some 4;
                            layer_children :=
                              Some [leaf "caption" false 11; leaf "logo" true 12] |};
                         leaf "logo" true 13; leaf "paper" true 14 ]));
  _renderer := Some ready_renderer;
  _render_mode := "full";
|}.

End SampleMore.

(** * Properties of the file cache *)

Module CacheProofs.
Import OS Cache.
Section CacheFacts.
Context `{Externals}.

(** ** The log only grows *)

Definition log_grows (w w' : World) : Prop := log w `prefix_of` log w'.

#[global] Instance log_grows_preorder : PreOrder log_grows.
Proof.
  split; [intros w; apply (reflexivity (R := prefix))|].
  intros a b c; apply (transitivity (R := prefix)).
Qed.

Lemma emit_grows l msg w : log_grows w (emit l msg w).
Proof. unfold log_grows; simpl. by apply prefix_app_r. Qed.

Lemma emit_logged l msg w : Log l msg ∈ log (emit l msg w).
Proof. simpl. apply elem_of_app. right. by left. Qed.

Lemma log_grows_elem r w w' : log_grows w w' → r ∈ log w → r ∈ log w'.
Proof. intros [k ->] ?. apply elem_of_app. by left. Qed.

Lemma remove_log w path w' : remove w path = Ok w' → log w' = log w.
Proof.
  unfold remove. destruct (fs w !! path) as [f|]; [|done].
  destruct (f_locked f); [done|]. by intros [= <-].
Qed.

Lemma write_log w path data w' : write w path data = Ok w' → log w' = log w.
Proof.
  unfold write. destruct (fs w !! path) as [f|].
  - destruct (f_locked f); [done|]. by intros [= <-].
  - by intros [= <-].
Qed.

Lemma sweep_grows limit files total w :
  log_grows w (sweep limit files total w).
Proof.
  revert total w. induction files as [|[f a] rest IH]; intros total w; simpl.
  { reflexivity. }
  destruct (total <=? limit); [reflexivity|].
  destruct (stat w f) as [st|e].
  - destruct (remove w f) as [w'|e] eqn:Hrm.
    + etrans; [|apply IH]. unfold log_grows. by rewrite (remove_log _ _ _ Hrm).
    + etrans; [apply emit_grows|apply IH].
  - etrans; [apply emit_grows|apply IH].
Qed.

Lemma cleanup_grows self w : log_grows w (_cleanup_cache self w).
Proof.
  unfold _cleanup_cache. destruct (_ <=? _); [reflexivity|apply sweep_grows].
Qed.

Lemma save_metadata_grows self w : log_grows w (_save_metadata self w).
Proof.
  unfold _save_metadata.
  destruct (write _ _ _) as [w'|e] eqn:Hw; [|apply emit_grows].
  unfold log_grows. by rewrite (write_log _ _ _ _ Hw).
Qed.

Lemma save_image_to_cache_grows self w image filepath suffix :
  log_grows w (save_image_to_cache self w image filepath suffix).2.
Proof.
  unfold save_image_to_cache.
  destruct (get_cache_path _ _ _ _) as [cpath|e]; [|apply emit_grows].
  destruct (png_encode image) as [data|e]; [|apply emit_grows].
  destruct (write w cpath data) as [w1|e] eqn:Hw; [|apply emit_grows].
  assert (log_grows w w1) as Hw1.
  { unfold log_grows. by rewrite (write_log _ _ _ _ Hw). }
  destruct (_get_file_hash w1 filepath) as [h|e];
    [|simpl; etrans; [exact Hw1|apply emit_grows]].
  destruct (stat w1 cpath) as [cfile|e];
    [|simpl; etrans; [exact Hw1|apply emit_grows]].
  simpl. etrans; [exact Hw1|]. etrans; [apply save_metadata_grows|].
  apply cleanup_grows.
Qed.

(** ** Listing the cache directory *)

Lemma set_fs_same w : set_fs w (fs w) = w.
Proof. by destruct w. Qed.

Lemma glob_files_elem w dir p f :
  (p, f) ∈ glob_files w dir
  ↔ fs w !! p = Some f ∧ String.prefix (dir +:+ "/") p = true.
Proof.
  unfold glob_files. rewrite list_elem_of_In, filter_In, <- list_elem_of_In.
  by rewrite elem_of_map_to_list.
Qed.

Lemma candidates_elem w dir p a :
  (p, a) ∈ candidates w dir
  ↔ ∃ f, fs w !! p = Some f ∧ String.prefix (dir +:+ "/") p = true
         ∧ is_candidate p = true ∧ a = st_atime f.
Proof.
  unfold candidates. rewrite list_elem_of_fmap. split.
  - intros ([q f] & [= -> ->] & Hin).
    apply list_elem_of_In, filter_In in Hin as [Hin Hc].
    apply list_elem_of_In, glob_files_elem in Hin as [? ?]. by exists f.
  - intros (f & Hf & Hpre & Hc & ->). exists (p, f). split; [done|].
    apply list_elem_of_In, filter_In. split; [|done].
    by apply list_elem_of_In, glob_files_elem.
Qed.

Lemma NoDup_fst_filter {A B} (g : A * B → bool) (l : list (A * B)) :
  NoDup l.*1 → NoDup (List.filter g l).*1.
Proof.
  induction l as [|x l IH]; simpl; [done|].
  rewrite NoDup_cons. intros [Hx Hl]. destruct (g x); [|by apply IH].
  simpl. apply NoDup_cons. split; [|by apply IH].
  intros Hin. apply Hx. apply list_elem_of_fmap in Hin as (y & -> & Hy).
  apply list_elem_of_fmap. exists y. split; [done|].
  apply list_elem_of_In. apply list_elem_of_In in Hy. by apply filter_In in Hy as [? _].
Qed.

Lemma candidates_NoDup w dir : NoDup (candidates w dir).*1.
Proof.
  unfold candidates, glob_files. rewrite <- list_fmap_compose.
  apply (NoDup_fst_filter (λ pf, is_candidate pf.1)), NoDup_fst_filter.
  apply NoDup_fst_map_to_list.
Qed.

(** ** The sort *)

Lemma insert_by_atime_perm x l : insert_by_atime x l ≡ₚ x :: l.
Proof.
  induction l as [|y l IH]; simpl; [done|].
  destruct (x.2 <=? y.2); [done|]. rewrite IH. apply Permutation_swap.
Qed.

Lemma sort_by_atime_perm l : sort_by_atime l ≡ₚ l.
Proof.
  induction l as [|x l IH]; simpl; [done|].
  by rewrite insert_by_atime_perm, IH.
Qed.

Definition not_after (x y : string * Z) : Prop := x.2 ≤ y.2.

Lemma insert_by_atime_sorted x l :
  StronglySorted not_after l → StronglySorted not_after (insert_by_atime x l).
Proof.
  induction 1 as [|y l Hl IH Hy]; simpl.
  { repeat constructor. }
  destruct (x.2 <=? y.2) eqn:Hxy.
  - apply Z.leb_le in Hxy. constructor; [by constructor|].
    constructor; [done|]. eapply Forall_impl; [exact Hy|].
    unfold not_after. intros z ?. lia.
  - apply Z.leb_gt in Hxy. constructor; [done|].
    rewrite insert_by_atime_perm. constructor; [|done]. unfold not_after. lia.
Qed.

Lemma sort_by_atime_sorted l : StronglySorted not_after (sort_by_atime l).
Proof.
  induction l as [|x l IH]; simpl; [constructor|].
  by apply insert_by_atime_sorted.
Qed.

Lemma sorted_split (l1 l2 : list (string * Z)) x y :
  StronglySorted not_after (l1 ++ l2) → x ∈ l1 → y ∈ l2 → x.2 ≤ y.2.
Proof.
  induction l1 as [|z l1 IH]; simpl; [by intros _ ?%elem_of_nil|].
  intros Hs Hx Hy. apply StronglySorted_inv in Hs as [Hs Hz].
  apply elem_of_cons in Hx as [->|Hx]; [|by apply IH].
  rewrite Forall_forall in Hz. apply Hz, elem_of_app. by right.
Qed.

(** ** The sweep *)

(** The sweep removes listed files and touches nothing else. *)
Lemma sweep_lookup limit files total w p :
  fs (sweep limit files total w) !! p = fs w !! p
  ∨ (p ∈ files.*1 ∧ fs (sweep limit files total w) !! p = None).
Proof.
  revert total w. induction files as [|[f a] rest IH]; intros total w; simpl.
  { by left. }
  destruct (total <=? limit); [by left|].
  assert (∀ msg, fs (sweep limit rest total (emit WARNING msg w)) !! p = fs w !! p
                 ∨ p ∈ f :: rest.*1
                   ∧ fs (sweep limit rest total (emit WARNING msg w)) !! p = None)
    as Hskip.
  { intros msg. destruct (IH total (emit WARNING msg w)) as [->|[? ?]];
      [by left|right]. split; [by apply elem_of_cons; right|done]. }
  unfold stat, remove. destruct (fs w !! f) as [st|] eqn:Hf; [|apply Hskip].
  destruct (f_locked st); [apply Hskip|].
  destruct (IH (total - st_size st) (set_fs w (delete f (fs w)))) as [Heq|[? ?]].
  - rewrite Heq. simpl. destruct (decide (p = f)) as [->|Hne].
    + right. split; [by left|]. apply lookup_delete_eq.
    + left. by apply lookup_delete_ne.
  - right. split; [by apply elem_of_cons; right|done].
Qed.

Lemma cleanup_lookup self w p :
  fs (_cleanup_cache self w) !! p = fs w !! p
  ∨ (fs (_cleanup_cache self w) !! p = None
     ∧ is_Some (fs w !! p)
     ∧ String.prefix (cache_dir self +:+ "/") p = true
     ∧ is_candidate p = true).
Proof.
  unfold _cleanup_cache. destruct (_ <=? _); [by left|].
  destruct (sweep_lookup (max_cache_size self)
              (sort_by_atime (candidates w (cache_dir self)))
              (total_size w (cache_dir self)) w p) as [?|[Hin Hp]]; [by left|].
  right. split; [done|].
  apply list_elem_of_fmap in Hin as ([q a] & -> & Hin).
  rewrite sort_by_atime_perm in Hin.
  apply candidates_elem in Hin as (f & Hf & ? & ? & _). simpl. eauto.
Qed.

(** ** Paths *)

Lemma split_nonempty c s : split c s ≠ [].
Proof.
  destruct s as [|a s]; simpl; [done|].
  destruct (Ascii.eqb a c); [done|]. by destruct (split c s).
Qed.

Lemma split_app_sep c s t :
  split c (s +:+ String c t) = split c s ++ split c t.
Proof.
  induction s as [|a s IH]; simpl.
  - by rewrite Ascii.eqb_refl.
  - destruct (Ascii.eqb a c); [by rewrite IH|].
    rewrite IH. pose proof (split_nonempty c s). by destruct (split c s).
Qed.

Lemma last_app_nonempty {A} (l1 l2 : list A) d :
  l2 ≠ [] → List.last (l1 ++ l2) d = List.last l2 d.
Proof.
  intros Hne. induction l1 as [|x l1 IH]; simpl; [done|].
  rewrite IH. destruct (l1 ++ l2) eqn:Happ; [|done].
  by apply app_eq_nil in Happ as [_ ?].
Qed.

Lemma path_name_join dir name : path_name (path_join dir name) = path_name name.
Proof.
  unfold path_name, path_join, split_last.
  change ("/" +:+ name) with (String "/" name).
  rewrite split_app_sep. apply last_app_nonempty, split_nonempty.
Qed.

Lemma prefix_append s t : String.prefix s (s +:+ t) = true.
Proof.
  induction s as [|a s IH]; simpl; [by destruct t|].
  destruct (ascii_dec a a); [done|done].
Qed.

Lemma append_assoc (a b c : string) : (a +:+ b) +:+ c = a +:+ b +:+ c.
Proof.
  induction a as [|x a IH]; [done|].
  change (String x ((a +:+ b) +:+ c) = String x (a +:+ b +:+ c)). by rewrite IH.
Qed.

Lemma path_join_below dir name :
  String.prefix (dir +:+ "/") (path_join dir name) = true.
Proof. unfold path_join. rewrite <- append_assoc. apply prefix_append. Qed.

(** The index file is no eviction candidate, wherever the cache is. *)
Lemma metadata_is_no_candidate dir :
  is_candidate (path_join dir "metadata.json") = false.
Proof.
  unfold is_candidate, path_suffix. rewrite path_name_join. by vm_compute.
Qed.

(** ** The total *)

Lemma total_perm (g : string * File → bool) (l1 l2 : list (string * File)) :
  l1 ≡ₚ l2 →
  foldr (λ pf acc, st_size pf.2 + acc) 0 (List.filter g l1)
  = foldr (λ pf acc, st_size pf.2 + acc) 0 (List.filter g l2).
Proof.
  induction 1 as [|x l1 l2 _ IH|x y l|l1 l2 l3 _ IH1 _ IH2]; simpl.
  - done.
  - destruct (g x); simpl; by rewrite IH.
  - destruct (g x), (g y); simpl; lia.
  - by rewrite IH1.
Qed.

Lemma total_size_delete w dir p f :
  fs w !! p = Some f →
  total_size w dir
  = (if String.prefix (dir +:+ "/") p then st_size f else 0)
    + total_size (set_fs w (delete p (fs w))) dir.
Proof.
  intros Hf. unfold total_size, glob_files. cbn [fs set_fs].
  rewrite <- (total_perm _ _ _ (map_to_list_delete (fs w) p f Hf)). simpl.
  by destruct (String.prefix (dir +:+ "/") p).
Qed.

(** ** What the sweep removes *)

Lemma foldr_delete_commute (m : gmap string File) p ps :
  foldr delete (delete p m) ps = delete p (foldr delete m ps).
Proof.
  induction ps as [|q ps IH]; simpl; [done|]. by rewrite IH, delete_delete.
Qed.

Lemma foldr_delete_lookup_ne (m : gmap string File) p ps :
  p ∉ ps → foldr delete m ps !! p = m !! p.
Proof.
  induction ps as [|q ps IH]; simpl; [done|].
  rewrite not_elem_of_cons. intros [? ?]. by rewrite lookup_delete_ne, IH.
Qed.

Lemma sizes_delete (m : gmap string File) p files :
  p ∉ files.*1 → sizes (delete p m) files = sizes m files.
Proof.
  induction files as [|[q a] files IH]; simpl; [done|].
  rewrite not_elem_of_cons. intros [? ?]. rewrite IH by done.
  unfold size_in. simpl. by rewrite lookup_delete_ne.
Qed.

Lemma sweep_spec limit files total w :
  NoDup files.*1 →
  (∀ p, p ∈ files.*1 → ∃ f, fs w !! p = Some f ∧ f_locked f = false) →
  ∃ removed kept,
    files = removed ++ kept
    ∧ sweep limit files total w = set_fs w (foldr delete (fs w) removed.*1)
    ∧ (total - sizes (fs w) removed ≤ limit ∨ kept = [])
    ∧ (∀ r1 x r2, removed = r1 ++ x :: r2 → limit < total - sizes (fs w) r1).
Proof.
  revert total w. induction files as [|[f a] rest IH]; intros total w Hnd Hex.
  { exists [], []. simpl. rewrite set_fs_same. repeat split; [by right|].
    intros r1 x r2 Heq. by destruct r1. }
  simpl. destruct (total <=? limit) eqn:Htot.
  { apply Z.leb_le in Htot. exists [], ((f, a) :: rest). simpl.
    rewrite set_fs_same. repeat split; [left; lia|].
    intros r1 x r2 Heq. by destruct r1. }
  apply Z.leb_gt in Htot. simpl in Hnd. apply NoDup_cons in Hnd as [Hf Hnd].
  destruct (Hex f) as (st & Hst & Hlock); [by left|].
  unfold stat, remove. rewrite Hst, Hlock.
  destruct (IH (total - st_size st) (set_fs w (delete f (fs w))) Hnd)
    as (removed & kept & -> & Hsweep & Hstop & Hneed).
  { intros p Hp. destruct (Hex p) as (g & Hg & ?); [by right|].
    exists g. split; [|done]. simpl. rewrite lookup_delete_ne; [done|].
    by intros ->. }
  rewrite fmap_app, not_elem_of_app in Hf. destruct Hf as [Hf _].
  simpl in Hsweep, Hstop, Hneed.
  exists ((f, a) :: removed), kept. split; [done|]. split.
  { rewrite Hsweep. simpl. by rewrite foldr_delete_commute. }
  split.
  { rewrite sizes_delete in Hstop by done. simpl. unfold size_in at 1. simpl.
    rewrite Hst. simpl. destruct Hstop; [left; lia|by right]. }
  intros r1 x r2 Heq. destruct r1 as [|y r1]; simpl in Heq.
  { simpl. lia. }
  injection Heq as <- ->. specialize (Hneed _ _ _ eq_refl).
  rewrite sizes_delete in Hneed.
  2:{ intros Hin. apply Hf. rewrite fmap_app. apply elem_of_app. by left. }
  simpl. unfold size_in at 1. simpl. rewrite Hst. simpl. lia.
Qed.

Lemma total_size_deletes w dir (removed : list (string * Z)) :
  NoDup removed.*1 →
  (∀ p, p ∈ removed.*1 →
        is_Some (fs w !! p) ∧ String.prefix (dir +:+ "/") p = true) →
  total_size (set_fs w (foldr delete (fs w) removed.*1)) dir
  = total_size w dir - sizes (fs w) removed.
Proof.
  induction removed as [|[p a] removed IH]; simpl; intros Hnd Hex.
  { rewrite set_fs_same. lia. }
  apply NoDup_cons in Hnd as [Hp Hnd].
  destruct (Hex p) as [[f Hf] Hpre]; [by left|].
  assert (total_size (set_fs w (foldr delete (fs w) removed.*1)) dir
          = total_size w dir - sizes (fs w) removed) as Hrest.
  { apply IH; [done|]. intros q Hq. apply Hex. by right. }
  pose proof (total_size_delete (set_fs w (foldr delete (fs w) removed.*1))
                dir p f) as Hdel.
  rewrite Hpre in Hdel. cbn [fs set_fs] in Hdel.
  rewrite foldr_delete_lookup_ne in Hdel by done. specialize (Hdel Hf).
  unfold size_in at 1. rewrite Hf. cbn [from_option].
  change (set_fs (set_fs w (foldr delete (fs w) removed.*1))
            (delete p (foldr delete (fs w) removed.*1)))
    with (set_fs w (delete p (foldr delete (fs w) removed.*1))) in Hdel.
  change (total_size (set_fs w (delete p (foldr delete (fs w) removed.*1))) dir
          = total_size w dir - (st_size f + sizes (fs w) removed)).
  lia.
Qed.

(** ** [get_cached_image] *)

(** C6, as the code has it.  For a source file that exists, with [cpath]
    the cache path computed from it, [get_cached_image] does not raise and:
    it returns a bitmap only if a file is at [cpath], that file is not older
    than the source and decodes to that bitmap, and then nothing has
    changed; if the file at [cpath] is older than the source the call
    returns absent after trying to remove it, so the file is gone unless
    the operating system refused, in which case it stays and a warning is
    logged; if the file is not older but cannot be decoded the call returns
    absent and the files are as before; if no file is at [cpath] the call
    returns absent and nothing has changed. *)
Theorem get_cached_image_cases self w filepath suffix src cpath :
  fs w !! filepath = Some src →
  get_cache_path self w filepath suffix = Ok cpath →
  let w' := (get_cached_image self w filepath suffix).1 in
  let r := (get_cached_image self w filepath suffix).2 in
  (∃ o, r = Ok o)
  ∧ (∀ img, r = Ok (Some img) →
       w' = w
       ∧ ∃ cfile, fs w !! cpath = Some cfile
                  ∧ st_mtime src ≤ st_mtime cfile
                  ∧ Image_open (f_content cfile) = Ok img)
  ∧ (∀ cfile, fs w !! cpath = Some cfile → st_mtime cfile < st_mtime src →
       r = Ok None
       ∧ (f_locked cfile = false → fs w' = delete cpath (fs w) ∧ log w' = log w)
       ∧ (f_locked cfile = true →
          fs w' = fs w
          ∧ log w' = log w ++ [Log WARNING
                                 ("Failed to remove stale cache " +:+ cpath
                                  +:+ ": Permission denied: " +:+ cpath)]))
  ∧ (∀ cfile e, fs w !! cpath = Some cfile → st_mtime src ≤ st_mtime cfile →
       Image_open (f_content cfile) = Raise e →
       r = Ok None ∧ fs w' = fs w)
  ∧ (fs w !! cpath = None → r = Ok None ∧ w' = w).
Proof.
  intros Hsrc Hpath w' r. subst w' r. unfold get_cached_image.
  rewrite Hpath. unfold exists_, getmtime, stat, remove. rewrite Hsrc.
  destruct (fs w !! cpath) as [cfile|] eqn:Hc.
  2:{ rewrite bool_decide_eq_false_2 by (by intros [? ?]). simpl.
      repeat split; eauto; done. }
  rewrite bool_decide_eq_true_2 by eauto. simpl.
  destruct (st_mtime cfile <? st_mtime src) eqn:Hstale.
  - apply Z.ltb_lt in Hstale.
    destruct (f_locked cfile) eqn:Hlock; simpl.
    + split; [eauto|]. split; [done|]. split.
      { intros ? [= <-] _. split; [done|]. split; [congruence|].
        intros _. split; reflexivity. }
      split; [|done]. intros ? ? [= <-] ?. lia.
    + split; [eauto|]. split; [done|]. split.
      { intros ? [= <-] _. split; [done|]. split; [|congruence].
        intros _. split; reflexivity. }
      split; [|done]. intros ? ? [= <-] ?. lia.
  - apply Z.ltb_ge in Hstale.
    destruct (Image_open (f_content cfile)) as [img|e] eqn:Hopen; simpl.
    + split; [eauto|]. split.
      { intros ? [= <-]. split; [done|]. by exists cfile. }
      split; [intros ? [= <-] ?; lia|]. split; [|done].
      intros ? ? [= <-] _ ?. congruence.
    + split; [eauto|]. split; [done|].
      split; [intros ? [= <-] ?; lia|]. split; [|done].
      by intros ? ? [= <-] _ _.
Qed.

(** ** Eviction *)

(** C7, as the code has it.  Let the sweep run ([save_image_to_cache] runs
    it once the image and the index are written) on a cache directory whose
    files, all of them, occupy more than the budget, and let the operating
    system refuse no removal of an image file.  The image files of the
    directory, sorted by last access time, fall into a front part that has
    been removed and a rest that is kept, and nothing else has changed:
    every removed file was last accessed no later than every kept one; the
    total has dropped by the bytes removed; the sweep stopped because the
    total was within the budget or because no image file was left; and it
    removed each file only while the running total still exceeded the
    budget. *)
Theorem eviction_removes_least_recently_accessed self w :
  max_cache_size self < total_size w (cache_dir self) →
  (∀ p f, fs w !! p = Some f →
          String.prefix (cache_dir self +:+ "/") p = true →
          is_candidate p = true → f_locked f = false) →
  ∃ removed kept,
    sort_by_atime (candidates w (cache_dir self)) = removed ++ kept
    ∧ (∀ p a, (p, a) ∈ removed ++ kept
              ↔ ∃ f, fs w !! p = Some f
                     ∧ String.prefix (cache_dir self +:+ "/") p = true
                     ∧ is_candidate p = true ∧ a = st_atime f)
    ∧ _cleanup_cache self w = set_fs w (foldr delete (fs w) removed.*1)
    ∧ (∀ x y, x ∈ removed → y ∈ kept → x.2 ≤ y.2)
    ∧ total_size (_cleanup_cache self w) (cache_dir self)
      = total_size w (cache_dir self) - sizes (fs w) removed
    ∧ (total_size (_cleanup_cache self w) (cache_dir self) ≤ max_cache_size self
       ∨ kept = [])
    ∧ (∀ r1 x r2, removed = r1 ++ x :: r2 →
         max_cache_size self < total_size w (cache_dir self) - sizes (fs w) r1).
Proof.
  intros Hover Hfree. unfold _cleanup_cache.
  rewrite (proj2 (Z.leb_gt _ _) Hover).
  assert (∀ p a, (p, a) ∈ sort_by_atime (candidates w (cache_dir self))
                 ↔ ∃ f, fs w !! p = Some f
                        ∧ String.prefix (cache_dir self +:+ "/") p = true
                        ∧ is_candidate p = true ∧ a = st_atime f) as Hmem.
  { intros p a. by rewrite sort_by_atime_perm, candidates_elem. }
  assert (NoDup (sort_by_atime (candidates w (cache_dir self))).*1) as Hnd.
  { rewrite sort_by_atime_perm. apply candidates_NoDup. }
  destruct (sweep_spec (max_cache_size self)
              (sort_by_atime (candidates w (cache_dir self)))
              (total_size w (cache_dir self)) w Hnd)
    as (removed & kept & Hsplit & Hsweep & Hstop & Hneed).
  { intros p ([q a] & -> & Hin)%list_elem_of_fmap.
    apply Hmem in Hin as (f & Hf & ? & ? & _). exists f. split; [done|].
    by eapply Hfree. }
  assert (total_size (set_fs w (foldr delete (fs w) removed.*1)) (cache_dir self)
          = total_size w (cache_dir self) - sizes (fs w) removed) as Htotal.
  { apply total_size_deletes.
    - rewrite Hsplit, fmap_app in Hnd. by apply NoDup_app in Hnd as [? _].
    - intros p ([q a] & -> & Hin)%list_elem_of_fmap.
      destruct (proj1 (Hmem q a)) as (f & Hf & ? & _); [|by eauto].
      rewrite Hsplit. apply elem_of_app. by left. }
  exists removed, kept. split; [done|]. split; [by rewrite <- Hsplit|].
  split; [done|]. split.
  { intros x y. apply sorted_split. rewrite <- Hsplit. apply sort_by_atime_sorted. }
  rewrite Hsweep, Htotal. done.
Qed.

(** C10.  The sweep leaves every file as it was or removes it, and a file
    it removes lies in the cache directory and has the suffix .png, .jpg or
    .jpeg.  The index file [metadata.json] of the directory is therefore as
    it was after the sweep, and yet its size is part of the total that the
    sweep compares with the budget. *)
Theorem eviction_spares_the_index self w :
  (∀ p, fs (_cleanup_cache self w) !! p = fs w !! p
        ∨ (fs (_cleanup_cache self w) !! p = None
           ∧ is_Some (fs w !! p)
           ∧ String.prefix (cache_dir self +:+ "/") p = true
           ∧ path_suffix p ∈ [".png"; ".jpg"; ".jpeg"]))
  ∧ fs (_cleanup_cache self w) !! path_join (cache_dir self) "metadata.json"
    = fs w !! path_join (cache_dir self) "metadata.json"
  ∧ (∀ f, fs w !! path_join (cache_dir self) "metadata.json" = Some f →
       total_size w (cache_dir self)
       = st_size f
         + total_size (set_fs w (delete (path_join (cache_dir self) "metadata.json")
                                   (fs w))) (cache_dir self)).
Proof.
  split; [|split].
  - intros p. destruct (cleanup_lookup self w p) as [?|(? & ? & ? & Hc)]; [by left|].
    right. repeat split; try done. unfold is_candidate in Hc.
    by apply bool_decide_eq_true in Hc.
  - destruct (cleanup_lookup self w (path_join (cache_dir self) "metadata.json"))
      as [?|(_ & _ & _ & Hc)]; [done|].
    by rewrite metadata_is_no_candidate in Hc.
  - intros f Hf. rewrite (total_size_delete w _ _ f Hf).
    by rewrite path_join_below.
Qed.

(** ** Saving, then reading *)

Lemma write_unlocked w p data :
  (∀ f, fs w !! p = Some f → f_locked f = false) →
  ∃ nf, write w p data = Ok (set_fs w (<[p := nf]> (fs w)))
        ∧ f_content nf = data ∧ st_mtime nf = clock w.
Proof.
  intros Hfree. unfold write. destruct (fs w !! p) as [f|] eqn:Hf.
  - rewrite (Hfree f eq_refl). by eexists.
  - by eexists.
Qed.

Lemma save_metadata_lookup self w p :
  p ≠ metadata_file self → fs (_save_metadata self w) !! p = fs w !! p.
Proof.
  intros Hne. unfold _save_metadata, write.
  destruct (fs w !! metadata_file self) as [f|]; [destruct (f_locked f)|];
    simpl; by rewrite ?lookup_insert_ne.
Qed.

Lemma prefix_ne dir p q :
  String.prefix dir p = true → String.prefix dir q = false → p ≠ q.
Proof. intros Hp Hq ->. congruence. Qed.

(** The last character tells a cache entry from the index file. *)
Fixpoint last_char (s : string) : option ascii :=
  match s with
  | EmptyString => None
  | String a EmptyString => Some a
  | String _ s' => last_char s'
  end.

Lemma last_char_append s t : t ≠ EmptyString → last_char (s +:+ t) = last_char t.
Proof.
  intros Ht. induction s as [|a s IH]; [done|].
  change (String a s +:+ t) with (String a (s +:+ t)). cbn [last_char].
  rewrite IH. destruct (s +:+ t) eqn:Hst; [|done].
  destruct s; [by cbn in Hst|discriminate].
Qed.

Lemma entry_is_not_the_index dir name :
  path_join dir (name +:+ ".png") ≠ path_join dir "metadata.json".
Proof.
  intros Heq. apply (f_equal last_char) in Heq. unfold path_join in Heq.
  rewrite <- (append_assoc dir "/" (name +:+ ".png")) in Heq.
  rewrite <- (append_assoc (dir +:+ "/") name ".png") in Heq.
  rewrite <- (append_assoc dir "/" "metadata.json") in Heq.
  rewrite !last_char_append in Heq by done. discriminate.
Qed.

(** C8, as the code has it.  Let the source file exist outside the cache
    directory, with a modification time that is not ahead of the clock, let
    the cache keep its index in [metadata.json] of its directory, let the
    PNG encoder accept the bitmap and the decoder give that bitmap back for
    the encoded bytes, let no file that refuses to be overwritten sit at
    the cache path, and let the sweep that ends the save not evict the entry
    just written.  Then [get_cached_image], called right after
    [save_image_to_cache], returns the bitmap and changes nothing. *)
Theorem saved_image_is_returned self w image filepath suffix src cpath data :
  fs w !! filepath = Some src →
  get_cache_path self w filepath suffix = Ok cpath →
  metadata_file self = path_join (cache_dir self) "metadata.json" →
  String.prefix (cache_dir self +:+ "/") filepath = false →
  png_encode image = Ok data →
  Image_open data = Ok image →
  (∀ f, fs w !! cpath = Some f → f_locked f = false) →
  st_mtime src ≤ clock w →
  is_Some (fs (save_image_to_cache self w image filepath suffix).2 !! cpath) →
  get_cached_image (save_image_to_cache self w image filepath suffix).1
    (save_image_to_cache self w image filepath suffix).2 filepath suffix
  = ((save_image_to_cache self w image filepath suffix).2, Ok (Some image)).
Proof.
  intros Hsrc Hpath Hindex Houtside Henc Hdec Hfree Hpast.
  assert (∃ h, _get_file_hash w filepath = Ok h
               ∧ cpath = path_join (cache_dir self) ((h +:+ suffix) +:+ ".png"))
    as (h & Hhash & Hcpath).
  { unfold get_cache_path in Hpath.
    destruct (_get_file_hash w filepath) as [h|e]; [|done].
    exists h. split; [done|]. injection Hpath as <-. by rewrite append_assoc. }
  assert (cpath ≠ filepath) as Hne1.
  { eapply prefix_ne; [|exact Houtside]. rewrite Hcpath. apply path_join_below. }
  assert (cpath ≠ metadata_file self) as Hne2.
  { rewrite Hindex, Hcpath. apply entry_is_not_the_index. }
  assert (filepath ≠ metadata_file self) as Hne3.
  { intros Heq. rewrite Heq, Hindex, path_join_below in Houtside. done. }
  destruct (write_unlocked w cpath data Hfree) as (nf & Hwrite & Hdata & Hmtime).
  assert (∃ self1,
            save_image_to_cache self w image filepath suffix
            = (self1, _cleanup_cache self1
                        (_save_metadata self1 (set_fs w (<[cpath:=nf]> (fs w)))))
            ∧ cache_dir self1 = cache_dir self
            ∧ metadata_file self1 = metadata_file self)
    as (self1 & Hsave & Hdir & Hmfile).
  { unfold save_image_to_cache. rewrite Hpath, Henc, Hwrite.
    assert (_get_file_hash (set_fs w (<[cpath:=nf]> (fs w))) filepath = Ok h) as ->.
    { unfold _get_file_hash, stat in *. simpl. by rewrite lookup_insert_ne. }
    assert (stat (set_fs w (<[cpath:=nf]> (fs w))) cpath = Ok nf) as ->.
    { unfold stat. simpl. by rewrite lookup_insert_eq. }
    eexists. split; [reflexivity|]. split; reflexivity. }
  rewrite Hsave. cbn [fst snd].
  set (w2 := _save_metadata self1 (set_fs w (<[cpath:=nf]> (fs w)))).
  intros Hkept. rewrite <- Hmfile in Hne2, Hne3.
  assert (fs (_cleanup_cache self1 w2) !! cpath = Some nf) as Hentry.
  { destruct (cleanup_lookup self1 w2 cpath) as [Heq|[Hnone _]].
    - rewrite Heq. unfold w2. rewrite save_metadata_lookup by done.
      simpl. apply lookup_insert_eq.
    - rewrite Hnone in Hkept. by destruct Hkept. }
  assert (fs (_cleanup_cache self1 w2) !! filepath = Some src) as Hsource.
  { destruct (cleanup_lookup self1 w2 filepath) as [Heq|(_ & _ & Hin & _)].
    - rewrite Heq. unfold w2. rewrite save_metadata_lookup by done.
      simpl. by rewrite lookup_insert_ne.
    - rewrite Hdir in Hin. congruence. }
  unfold get_cached_image, get_cache_path, _get_file_hash, getmtime, exists_, stat.
  rewrite Hsource, Hdir.
  unfold _get_file_hash, stat in Hhash. rewrite Hsrc in Hhash.
  injection Hhash as Hh. rewrite Hh, <- append_assoc, <- Hcpath, Hentry.
  rewrite bool_decide_eq_true_2 by eauto. cbn [negb].
  rewrite (proj2 (Z.ltb_ge _ _)) by lia. by rewrite Hdata, Hdec.
Qed.

End CacheFacts.

Section WithPillow.
Import Sample.
#[local] Existing Instance pillow.

(** C6 fails on the code.  The entry of the poster is older than the poster
    and is held open: [get_cached_image] returns absent and the stale file
    is still there. *)
Lemma stale_entry_survives_refused_removal :
  get_cache_path cache0 held_world "poster.psd" "_full" = Ok poster_entry
  ∧ fs held_world !! poster_entry = Some held_entry
  ∧ st_mtime held_entry < st_mtime poster
  ∧ (get_cached_image cache0 held_world "poster.psd" "_full").2 = Ok None
  ∧ fs (get_cached_image cache0 held_world "poster.psd" "_full").1 !! poster_entry
    = Some held_entry.
Proof. repeat split; vm_compute; reflexivity. Qed.

Lemma get_cached_image_cases_witness :
  (fs held_world !! "poster.psd" = Some poster
   ∧ get_cache_path cache0 held_world "poster.psd" "_full" = Ok poster_entry)
  ∧ (get_cached_image cache0 held_world "poster.psd" "_full").2 = Ok None
  ∧ fs (get_cached_image cache0 held_world "poster.psd" "_full").1 = fs held_world.
Proof.
  assert (fs held_world !! "poster.psd" = Some poster) as H1
    by (vm_compute; reflexivity).
  assert (get_cache_path cache0 held_world "poster.psd" "_full" = Ok poster_entry)
    as H2 by (vm_compute; reflexivity).
  split; [exact (conj H1 H2)|].
  destruct (get_cached_image_cases cache0 held_world "poster.psd" "_full"
              poster poster_entry H1 H2) as (_ & _ & Hstale & _ & _).
  destruct (Hstale held_entry) as (Hr & _ & Hkept).
  { vm_compute; reflexivity. }
  { vm_compute; reflexivity. }
  split; [exact Hr|]. apply Hkept. reflexivity.
Defined.

(** C7 fails on the code.  The cache holds one entry of two gibibytes,
    the least recently accessed, which another process holds open.  Saving
    the poster's composite runs the sweep: the removal of the old entry is
    refused, the entry just written is removed instead, and the directory
    still exceeds the budget. *)
Lemma refused_removal_defeats_eviction :
  let w' := (save_image_to_cache cache0 album_world (Bitmap 1 640 480)
               "poster.psd" "_full").2 in
  max_cache_size cache0 < total_size album_world "psd_cache"
  ∧ fs w' !! "psd_cache/album_full.png" = Some album_entry
  ∧ fs w' !! poster_entry = None
  ∧ max_cache_size cache0 < total_size w' "psd_cache"
  ∧ Log WARNING ("Failed to clean up cache file psd_cache/album_full.png: "
                 +:+ "Permission denied: psd_cache/album_full.png") ∈ log w'.
Proof.
  cbv zeta. do 4 (split; [vm_compute; reflexivity|]).
  apply list_elem_of_In. vm_compute. tauto.
Qed.

Lemma crowded_world_unlocked p f :
  fs crowded_world !! p = Some f → f_locked f = false.
Proof.
  intros Hf. apply elem_of_map_to_list in Hf.
  assert (Forall (λ pf, f_locked pf.2 = false) (map_to_list (fs crowded_world)))
    as Hall by (vm_compute; repeat constructor).
  rewrite Forall_forall in Hall. exact (Hall (p, f) Hf).
Qed.

Lemma eviction_removes_least_recently_accessed_witness :
  (max_cache_size cache0 < total_size crowded_world (cache_dir cache0)
   ∧ ∀ p f, fs crowded_world !! p = Some f →
            String.prefix (cache_dir cache0 +:+ "/") p = true →
            is_candidate p = true → f_locked f = false)
  ∧ ∃ removed kept,
      sort_by_atime (candidates crowded_world (cache_dir cache0)) = removed ++ kept
      ∧ (∀ p a, (p, a) ∈ removed ++ kept
                ↔ ∃ f, fs crowded_world !! p = Some f
                       ∧ String.prefix (cache_dir cache0 +:+ "/") p = true
                       ∧ is_candidate p = true ∧ a = st_atime f)
      ∧ _cleanup_cache cache0 crowded_world
        = set_fs crowded_world (foldr delete (fs crowded_world) removed.*1)
      ∧ (∀ x y, x ∈ removed → y ∈ kept → x.2 ≤ y.2)
      ∧ total_size (_cleanup_cache cache0 crowded_world) (cache_dir cache0)
        = total_size crowded_world (cache_dir cache0)
          - sizes (fs crowded_world) removed
      ∧ (total_size (_cleanup_cache cache0 crowded_world) (cache_dir cache0)
         ≤ max_cache_size cache0
         ∨ kept = [])
      ∧ (∀ r1 x r2, removed = r1 ++ x :: r2 →
           max_cache_size cache0
           < total_size crowded_world (cache_dir cache0)
             - sizes (fs crowded_world) r1).
Proof.
  assert (∀ p f, fs crowded_world !! p = Some f →
                 String.prefix (cache_dir cache0 +:+ "/") p = true →
                 is_candidate p = true → f_locked f = false) as H2.
  { intros p f Hf _ _. exact (crowded_world_unlocked p f Hf). }
  assert (max_cache_size cache0 < total_size crowded_world (cache_dir cache0))
    as H1 by (vm_compute; reflexivity).
  split; [exact (conj H1 H2)|].
  exact (eviction_removes_least_recently_accessed cache0 crowded_world H1 H2).
Defined.

Lemma eviction_spares_the_index_witness :
  fs brimful_world !! path_join (cache_dir cache0) "metadata.json" = Some index_file
  ∧ total_size brimful_world (cache_dir cache0)
    = st_size index_file
      + total_size (set_fs brimful_world
                      (delete (path_join (cache_dir cache0) "metadata.json")
                         (fs brimful_world))) (cache_dir cache0)
  ∧ total_size (set_fs brimful_world
                  (delete (path_join (cache_dir cache0) "metadata.json")
                     (fs brimful_world))) (cache_dir cache0)
    = max_cache_size cache0
  ∧ fs (_cleanup_cache cache0 brimful_world) !! "psd_cache/b_full.png" = None
  ∧ fs (_cleanup_cache cache0 brimful_world)
      !! path_join (cache_dir cache0) "metadata.json" = Some index_file.
Proof.
  assert (fs brimful_world !! path_join (cache_dir cache0) "metadata.json"
          = Some index_file) as H1 by (vm_compute; reflexivity).
  destruct (eviction_spares_the_index cache0 brimful_world) as (_ & Hkept & Hsum).
  split; [exact H1|]. split; [exact (Hsum index_file H1)|].
  split; [vm_compute; reflexivity|]. split; [vm_compute; reflexivity|].
  rewrite Hkept. exact H1.
Defined.

(** C8 fails on the code.  The poster's modification time is ahead of the
    clock.  Its composite is saved, the PNG decodes to the same bitmap and
    the source is not touched, yet the lookup that follows takes the entry
    for stale, removes it and returns absent. *)
Lemma early_source_defeats_the_round_trip :
  let after := save_image_to_cache cache0 early_world (Bitmap 1 640 480)
                 "poster.psd" "_full" in
  let entry := "psd_cache/poster.psd1000200_full.png" in
  (f_content <$> fs after.2 !! entry) = Some (Png (Bitmap 1 640 480) 1228864)
  ∧ Image_open (Png (Bitmap 1 640 480) 1228864) = Ok (Bitmap 1 640 480)
  ∧ fs after.2 !! "poster.psd" = fs early_world !! "poster.psd"
  ∧ (get_cached_image after.1 after.2 "poster.psd" "_full").2 = Ok None
  ∧ fs (get_cached_image after.1 after.2 "poster.psd" "_full").1 !! entry = None.
Proof. cbv zeta. repeat split; vm_compute; reflexivity. Qed.

Lemma saved_image_is_returned_witness :
  let after := save_image_to_cache cache0 quiet_world (Bitmap 1 640 480)
                 "poster.psd" "_full" in
  (fs quiet_world !! "poster.psd" = Some poster
   ∧ get_cache_path cache0 quiet_world "poster.psd" "_full" = Ok poster_entry
   ∧ st_mtime poster ≤ clock quiet_world
   ∧ is_Some (fs after.2 !! poster_entry))
  ∧ get_cached_image after.1 after.2 "poster.psd" "_full"
    = (after.2, Ok (Some (Bitmap 1 640 480))).
Proof.
  cbv zeta.
  assert (st_mtime poster ≤ clock quiet_world) as H3
    by (vm_compute; intros Hc; discriminate Hc).
  assert (fs quiet_world !! "poster.psd" = Some poster) as H1
    by (vm_compute; reflexivity).
  assert (get_cache_path cache0 quiet_world "poster.psd" "_full" = Ok poster_entry)
    as H2 by (vm_compute; reflexivity).
  assert (is_Some (fs (save_image_to_cache cache0 quiet_world (Bitmap 1 640 480)
                         "poster.psd" "_full").2 !! poster_entry)) as H4.
  { vm_compute. eexists. reflexivity. }
  split; [exact (conj H1 (conj H2 (conj H3 H4)))|].
  apply (saved_image_is_returned cache0 quiet_world (Bitmap 1 640 480)
           "poster.psd" "_full" poster poster_entry
           (Png (Bitmap 1 640 480) 1228864) H1 H2);
    [reflexivity | reflexivity | reflexivity | reflexivity | | exact H3 | exact H4].
  clear. intros f Hf.
  assert (fs quiet_world !! poster_entry = None) as Hnone
    by (vm_compute; reflexivity).
  rewrite Hnone in Hf. discriminate Hf.
Defined.

End WithPillow.
End CacheProofs.

(** * Properties of the composite generator *)

Module GeneratorProofs.
Import OS Cache Rendering CacheProofs.
Section Generator.
Context `{Externals}.

(** [hasattr] is asked for the name of the lambda, which no document
    object has. *)
Lemma lambda_is_no_attribute (psd : PSD) (m : Strategy) :
  m ∈ try_methods psd →
  hasattr psd (split_last "." (method___name__ m)) = false.
Proof.
  unfold try_methods. rewrite !elem_of_cons, elem_of_nil.
  intros [-> | [-> | [-> | []]]]; reflexivity.
Qed.

Lemma builtin_loop_skips (psd : PSD) (ms : list Strategy) (st : Locals) :
  (∀ m, m ∈ ms → hasattr psd (split_last "." (method___name__ m)) = false) →
  builtin_loop psd ms st = st.
Proof.
  induction ms as [|m ms IH]; intros Hms; [done|]. simpl.
  rewrite (Hms m) by left. apply IH. intros m' Hm'. apply Hms. by right.
Qed.

Lemma builtin_loop_try_methods (psd : PSD) (st : Locals) :
  builtin_loop psd (try_methods psd) st = st.
Proof. apply builtin_loop_skips, lambda_is_no_attribute. Qed.

(** ** The layer loop *)

Lemma compose_layers_app i (l1 l2 : list Layer) canvas w :
  compose_layers i (l1 ++ l2) canvas w =
  compose_layers (i + length l1) l2
    (compose_layers i l1 canvas w).1 (compose_layers i l1 canvas w).2.
Proof.
  revert i canvas w. induction l1 as [|layer l1 IH]; intros i canvas w; simpl.
  { by rewrite Nat.add_0_r. }
  replace (i + S (length l1))%nat with (S i + length l1)%nat by lia.
  destruct (default true (layer_visible layer)); [|apply IH].
  destruct (paint_layer canvas layer) as [[c|]|e]; apply IH.
Qed.

Lemma compose_layers_canvas i (ls : list Layer) canvas w :
  (compose_layers i ls canvas w).1 = alpha_composited ls canvas.
Proof.
  revert i canvas w. induction ls as [|layer ls IH]; intros i canvas w; simpl.
  { done. }
  destruct (default true (layer_visible layer)); [|apply IH].
  destruct (paint_layer canvas layer) as [[c|]|e]; apply IH.
Qed.

Lemma compose_layers_grows i (ls : list Layer) canvas w :
  log_grows w (compose_layers i ls canvas w).2.
Proof.
  revert i canvas w. induction ls as [|layer ls IH]; intros i canvas w; simpl.
  { reflexivity. }
  destruct (default true (layer_visible layer)); [|apply IH].
  destruct (paint_layer canvas layer) as [[c|]|e]; [|apply IH|];
    (etrans; [apply emit_grows|apply IH]).
Qed.

Lemma alpha_composited_app (l1 l2 : list Layer) canvas :
  alpha_composited (l1 ++ l2) canvas =
  alpha_composited l2 (alpha_composited l1 canvas).
Proof.
  revert canvas. induction l1 as [|layer l1 IH]; intros canvas; simpl; [done|].
  apply IH.
Qed.

(** What [_generate_composite] does once the manual path has its canvas. *)
Lemma generate_composite_manual psd self cache w layers canvas0 :
  psd_layers psd = Some layers → layers ≠ [] →
  blank_canvas psd layers = Ok canvas0 →
  ∃ cache' w',
    _generate_composite psd self cache w
    = (cache', w', Ok (alpha_composited (rev layers) canvas0))
    ∧ log_grows
        (compose_layers 0 (rev layers) canvas0
           (emit DEBUG "Attempting manual layer composition"
              (emit DEBUG ("Generating composite for PSD: " +:+ psd_type_name psd) w))).2
        w'.
Proof.
  intros Hl Hne Hc. unfold _generate_composite.
  rewrite builtin_loop_try_methods. cbn [composite]. rewrite Hl.
  destruct layers as [|l ls]; [done|].
  unfold manual_composition. rewrite Hc. cbn [world methods_tried composite].
  destruct (compose_layers 0 _ canvas0 _) as [canvas w1] eqn:Hcl.
  cbn [composite world].
  assert (canvas = alpha_composited (rev (l :: ls)) canvas0) as ->.
  { rewrite <- (compose_layers_canvas 0 _ canvas0
                  (emit DEBUG "Attempting manual layer composition"
                     (emit DEBUG ("Generating composite for PSD: "
                                  +:+ psd_type_name psd) w))).
    by rewrite Hcl. }
  destruct (filepath self) as [[|a path]|].
  - eexists _, _. split; [reflexivity|]. reflexivity.
  - destruct (save_image_to_cache _ _ _ _ _) as [cache' w'] eqn:Hs.
    eexists _, _. split; [reflexivity|].
    change w' with (cache', w').2. rewrite <- Hs.
    apply save_image_to_cache_grows.
  - eexists _, _. split; [reflexivity|]. reflexivity.
Qed.

(** ** The placeholder *)

Lemma placeholder_lines (tried : list string) :
  split LF (placeholder_text tried) =
  ["Failed to load PSD file."; ""; "Tried methods:"]
  ++ split LF (join nl ((λ m, "- " +:+ m) <$> tried)).
Proof. reflexivity. Qed.

(** In the claim's words: the diagnostic bitmap.  A bitmap of fixed size,
    800 by 200, with a pale-red background, (255, 200, 200), on which
    [lines] are rendered as text in (200, 0, 0), one below the other: line
    [i] at (10, 10 + 20 i).  The first Pillow call that raises ends the
    drawing with its exception. *)
Definition diagnostic_bitmap (lines : list string) : result Image :=
  img ← Image_new "RGB" (800, 200) [255; 200; 200];
  _ ← ImageDraw_Draw img;
  font ← ImageFont_load_default;
  foldl (λ (drawn : result Image) (il : nat * string),
           img ← drawn;
           draw_text img (10, 10 + 20 * Z.of_nat il.1) il.2 [200; 0; 0] font)
    (Ok img) (zip (seq 0 (length lines)) lines).

Lemma foldl_raised {A B} (f : A → B → result A) (e : exn) (l : list B) :
  foldl (λ (acc : result A) (b : B), a ← acc; f a b) (Raise e) l = Raise e.
Proof. by induction l. Qed.

Lemma draw_lines_fold (img : Image) (font : Font) (i : nat) (lines : list string) :
  draw_lines img font i lines
  = foldl (λ (drawn : result Image) (il : nat * string),
             img ← drawn;
             draw_text img (10, 10 + 20 * Z.of_nat il.1) il.2 [200; 0; 0] font)
      (Ok img) (zip (seq i (length lines)) lines).
Proof.
  revert img i. induction lines as [|line lines IH]; intros img i; simpl; [done|].
  replace (10 + 20 * Z.of_nat i) with (10 + Z.of_nat i * 20) by lia.
  destruct (draw_text img _ line _ font) as [img'|e]; cbn [mbind result_bind].
  - apply IH.
  - symmetry. apply (foldl_raised
      (λ (img : Image) (il : nat * string),
         draw_text img (10, 10 + 20 * Z.of_nat il.1) il.2 [200; 0; 0] font)).
Qed.

Lemma placeholder_is_the_diagnostic_bitmap (tried : list string) :
  placeholder tried
  = diagnostic_bitmap (["Failed to load PSD file."; ""; "Tried methods:"]
                       ++ split LF (join nl ((λ m, "- " +:+ m) <$> tried))).
Proof.
  unfold placeholder, diagnostic_bitmap. rewrite placeholder_lines.
  destruct (Image_new _ _ _) as [img0|e]; [|done]. cbn [mbind result_bind].
  destruct (ImageDraw_Draw img0) as [[]|e]; [|done]. cbn [mbind result_bind].
  destruct ImageFont_load_default as [font|e]; [|done]. cbn [mbind result_bind].
  apply draw_lines_fold.
Qed.

(** What [_generate_composite] does when no strategy left a composite. *)
Lemma generate_composite_fallback psd self cache w tried w1 :
  (let st := builtin_loop psd (try_methods psd)
               {| composite := None; methods_tried := [];
                  world := emit DEBUG ("Generating composite for PSD: "
                                       +:+ psd_type_name psd) w |} in
   match composite st, psd_layers psd with
   | None, Some (l :: ls) => manual_composition psd (l :: ls) st
   | _, _ => st
   end) = {| composite := None; methods_tried := tried; world := w1 |} →
  _generate_composite psd self cache w =
  let error_msg := "Could not generate composite. Tried methods: "
                   +:+ join ", " tried in
  match placeholder tried with
  | Ok img => (cache, emit ERROR error_msg w1, Ok img)
  | Raise fallback_error =>
      (cache,
       emit ERROR ("Failed to create error placeholder: "
                   +:+ exc_msg fallback_error) (emit ERROR error_msg w1),
       Raise (Exn "ValueError" error_msg))
  end.
Proof.
  intros Hst. unfold _generate_composite. cbv zeta in Hst. rewrite Hst.
  cbn [composite methods_tried world]. by destruct (placeholder tried).
Qed.

(** C2.  Per-layer isolation.  In a document whose layers are, top first,
    [above ++ bad :: below], let the canvas of the manual path exist and let
    rendering the visible layer [bad] raise [e] whatever is painted beneath
    it.  Then [_generate_composite] raises nothing and returns the canvas
    on which the other layers, and only they, have been alpha-composited
    bottom-to-top (the reverse of the declared order) at their (left, top)
    offsets, and the log holds the warning that names [bad] and its index in
    the loop, which counts from the bottom layer. *)
Theorem layer_failure_is_isolated psd self cache w above bad below e canvas0 :
  psd_layers psd = Some (above ++ bad :: below) →
  blank_canvas psd (above ++ bad :: below) = Ok canvas0 →
  default true (layer_visible bad) = true →
  (∀ canvas, paint_layer canvas bad = Raise e) →
  ∃ cache' w',
    _generate_composite psd self cache w
    = (cache', w', Ok (alpha_composited (rev (above ++ below)) canvas0))
    ∧ Log WARNING ("Layer " +:+ pretty (length below) +:+ " error ("
                   +:+ name_of bad +:+ "): " +:+ exc_msg e) ∈ log w'.
Proof.
  intros Hl Hc Hvis Hbad.
  destruct (generate_composite_manual psd self cache w _ canvas0 Hl)
    as (cache' & w' & Hgen & Hlog); [by destruct above|exact Hc|].
  exists cache', w'. split.
  - rewrite Hgen. do 2 f_equal.
    rewrite !rev_app_distr. simpl. rewrite <- !app_assoc, !alpha_composited_app.
    simpl. by rewrite Hvis, Hbad.
  - eapply log_grows_elem; [exact Hlog|].
    rewrite rev_app_distr. simpl. rewrite <- app_assoc.
    rewrite compose_layers_app. simpl. rewrite length_rev, Hvis, Hbad.
    eapply log_grows_elem; [apply compose_layers_grows|apply emit_logged].
Qed.

(** C3.  Fallback exhaustion.  When no strategy leaves a composite,
    [_generate_composite] returns the diagnostic bitmap as a value and
    raises only when a Pillow call that draws it raises; it then raises a
    [ValueError] that carries the list of failures.  There are two ways to
    get there, and in each the text, the log and the cache are these:

    - the layer list is missing or empty: no strategy was attempted, the
      text is the heading alone (with the empty line that ends it);
    - the layer list is not empty and the manual path cannot get its canvas
      (no size, or [Image.new] raises [e]): the text is the heading and
      the line(s) "- manual composition failed: <e>", and the failure has
      been logged as an error.

    The bitmap is 800 by 200, filled with (255, 200, 200), with line [i]
    of the text drawn at (10, 10 + 20 i) in (200, 0, 0); the cache is not
    touched. *)
Theorem exhausted_strategies_give_placeholder psd self cache w :
  let w0 := emit DEBUG ("Generating composite for PSD: " +:+ psd_type_name psd) w in
  let heading := ["Failed to load PSD file."; ""; "Tried methods:"] in
  let fallback (tried : string) (lines : list string) (w1 : World) :=
    let error_msg := "Could not generate composite. Tried methods: " +:+ tried in
    match diagnostic_bitmap (heading ++ lines) with
    | Ok img => (cache, emit ERROR error_msg w1, Ok img)
    | Raise fallback_error =>
        (cache,
         emit ERROR ("Failed to create error placeholder: "
                     +:+ exc_msg fallback_error) (emit ERROR error_msg w1),
         Raise (Exn "ValueError" error_msg))
    end in
  (psd_layers psd = None ∨ psd_layers psd = Some [] →
   _generate_composite psd self cache w = fallback "" [""] w0)
  ∧ (∀ layers e,
       psd_layers psd = Some layers → layers ≠ [] →
       blank_canvas psd layers = Raise e →
       _generate_composite psd self cache w
       = fallback ("manual composition failed: " +:+ exc_msg e)
           (split LF ("- manual composition failed: " +:+ exc_msg e))
           (emit ERROR ("Manual composition failed: " +:+ exc_msg e)
              (emit DEBUG "Attempting manual layer composition" w0))).
Proof.
  intros w0 heading fallback. split.
  - intros Hcase.
    rewrite (generate_composite_fallback psd self cache w [] w0).
    + cbv zeta. rewrite placeholder_is_the_diagnostic_bitmap. reflexivity.
    + cbv zeta. rewrite builtin_loop_try_methods. cbn [composite].
      by destruct Hcase as [-> | ->].
  - intros layers e Hl Hne Hc.
    rewrite (generate_composite_fallback psd self cache w
               ["manual composition failed: " +:+ exc_msg e]
               (emit ERROR ("Manual composition failed: " +:+ exc_msg e)
                  (emit DEBUG "Attempting manual layer composition" w0))).
    + cbv zeta. rewrite placeholder_is_the_diagnostic_bitmap. reflexivity.
    + cbv zeta. rewrite builtin_loop_try_methods. cbn [composite]. rewrite Hl.
      destruct layers as [|l ls]; [done|].
      unfold manual_composition. rewrite Hc. reflexivity.
Qed.

End Generator.

#[local] Existing Instance Sample.pillow.
Import Sample.

(** C1.  The loop over [try_methods] asks [hasattr] for the [__name__] of
    each lambda, finds no such attribute and calls none of the three
    accessors: it leaves the locals as they were, whatever the document
    offers.  For the flattened sample document, whose [composite()] returns
    a 640x480 bitmap, [_generate_composite] therefore returns the "Failed to
    load PSD file." placeholder with no method recorded. *)
Theorem builtin_strategies_are_never_called :
  (∀ (E : Externals) (psd : PSD) (st : Locals),
     builtin_loop psd (try_methods psd) st = st)
  ∧ psd_composite flat_psd = Some (Ok (Some (Bitmap 1 640 480)))
  ∧ (_generate_composite flat_psd renderer0 cache0 world0).2 = placeholder []
  ∧ (_generate_composite flat_psd renderer0 cache0 world0).2
    ≠ Ok (Bitmap 1 640 480)
  ∧ Log DEBUG "Success with psd.composite()"
    ∉ log (_generate_composite flat_psd renderer0 cache0 world0).1.2.
Proof.
  split; [intros; apply builtin_loop_try_methods|].
  split; [reflexivity|]. split; [reflexivity|]. split; [discriminate|].
  intros Hin. apply list_elem_of_In in Hin. vm_compute in Hin.
  destruct Hin as [?|[?|[]]]; discriminate.
Qed.

Lemma layer_failure_is_isolated_witness :
  (psd_layers layered_psd = Some ([title_layer] ++ smart_layer :: [background_layer])
   ∧ blank_canvas layered_psd ([title_layer] ++ smart_layer :: [background_layer])
     = Ok (New "RGBA" 4 4 [0; 0; 0; 0])
   ∧ default true (layer_visible smart_layer) = true
   ∧ ∀ canvas, paint_layer canvas smart_layer
               = Raise (Exn "ValueError" "Unsupported smart object"))
  ∧ ∃ cache' w',
      _generate_composite layered_psd renderer0 cache0 world0
      = (cache', w',
         Ok (Over (Over (New "RGBA" 4 4 [0; 0; 0; 0]) (Bitmap 2 4 4) (0, 0))
               (Bitmap 3 2 2) (1, 1)))
      ∧ Log WARNING "Layer 1 error (smart object): Unsupported smart object"
        ∈ log w'.
Proof.
  split.
  - repeat split; reflexivity.
  - apply (layer_failure_is_isolated layered_psd renderer0 cache0 world0
             [title_layer] smart_layer [background_layer]
             (Exn "ValueError" "Unsupported smart object")
             (New "RGBA" 4 4 [0; 0; 0; 0]));
      [reflexivity | reflexivity | reflexivity | intros; reflexivity].
Defined.

Lemma exhausted_strategies_give_placeholder_witness :
  let heading :=
    Text (Text (Text (New "RGB" 800 200 [255; 200; 200])
                  (10, 10) "Failed to load PSD file." [200; 0; 0])
            (10, 30) "" [200; 0; 0])
      (10, 50) "Tried methods:" [200; 0; 0] in
  (_generate_composite bare_psd renderer0 cache0 world0).2
  = Ok (Text heading (10, 70) "" [200; 0; 0])
  ∧ (_generate_composite sizeless_psd renderer0 cache0 world0).2
    = Ok (Text heading (10, 70)
            "- manual composition failed: Unable to determine image dimensions"
            [200; 0; 0]).
Proof.
  intros heading.
  destruct (exhausted_strategies_give_placeholder bare_psd renderer0 cache0 world0)
    as [Hbare _].
  destruct (exhausted_strategies_give_placeholder sizeless_psd renderer0 cache0
              world0) as [_ Hsizeless].
  rewrite Hbare by (left; reflexivity).
  rewrite (Hsizeless _ (Exn "ValueError" "Unable to determine image dimensions")
             eq_refl); [|discriminate|reflexivity].
  split; reflexivity.
Defined.

End GeneratorProofs.

(** * Properties of the renderer's state machine *)

Module RendererProofs.
Import OS Cache Rendering CacheProofs GeneratorProofs.
Section Renderer.
Context `{Externals}.

(** A request met by a renderer that is generating: the callback joins
    the list, nothing else moves. *)
Lemma request_while_generating s cb :
  phase_of (sys_renderer s) = Generating →
  get_composite_image (Some cb) s
  = (set_renderer s {| filepath := filepath (sys_renderer s); _composite := None;
                       _loading := true;
                       _callbacks := _callbacks (sys_renderer s) ++ [cb] |}, None).
Proof.
  unfold phase_of, get_composite_image.
  destruct (_composite (sys_renderer s)); [done|].
  destruct (_loading (sys_renderer s)); [done|done].
Qed.

Lemma requests_while_generating cbs s :
  phase_of (sys_renderer s) = Generating →
  requests cbs s
  = (set_renderer s {| filepath := filepath (sys_renderer s); _composite := None;
                       _loading := true;
                       _callbacks := _callbacks (sys_renderer s) ++ cbs |},
     replicate (length cbs) None).
Proof.
  revert s. induction cbs as [|cb cbs IH]; intros s Hs; simpl.
  - rewrite app_nil_r. f_equal. destruct s as [? ? ? r ? ? ?]; simpl in *.
    unfold phase_of in Hs. destruct r as [? c l ?]; simpl in *.
    destruct c; [done|]. by destruct l.
  - rewrite (request_while_generating _ _ Hs). rewrite IH by done.
    simpl. by rewrite <- app_assoc.
Qed.

(** The first request met by an idle renderer starts the one worker. *)
Lemma request_when_idle s cb :
  phase_of (sys_renderer s) = Idle →
  get_composite_image (Some cb) s
  = ({| sys_psd := sys_psd s; sys_cache := sys_cache s; sys_world := sys_world s;
        sys_renderer := {| filepath := filepath (sys_renderer s);
                           _composite := None; _loading := true;
                           _callbacks := _callbacks (sys_renderer s) ++ [cb] |};
        sys_started := S (sys_started s); sys_running := S (sys_running s);
        sys_invoked := sys_invoked s |}, None).
Proof.
  unfold phase_of, get_composite_image.
  destruct (_composite (sys_renderer s)); [done|].
  by destruct (_loading (sys_renderer s)).
Qed.

Lemma invoke_all_trace (cbs : list Callback) (img : Image) invoked w :
  (invoke_all cbs img invoked w).1 = invoked ++ ((λ cb, (cb, img)) <$> cbs).
Proof.
  revert invoked w. induction cbs as [|cb cbs IH]; intros invoked w; simpl.
  - by rewrite app_nil_r.
  - rewrite IH. by rewrite <- app_assoc.
Qed.

(** The only exception [_generate_composite] lets out is the [ValueError]
    of the fallback tier. *)
Lemma generate_composite_raises psd self cache w cache' w' e :
  _generate_composite psd self cache w = (cache', w', Raise e) →
  exc_type e = "ValueError".
Proof.
  unfold _generate_composite.
  match goal with |- context [composite ?st] => destruct (composite st) end.
  - destruct (filepath self) as [[|a path]|]; [congruence| |congruence].
    destruct (save_image_to_cache _ _ _ _ _). congruence.
  - destruct (placeholder _); [congruence|]. by intros [= _ _ <-].
Qed.

(** Serial runs.  Take an idle renderer with no callback attached and no
    worker running, and let the requests [cbs] (at least one) each return
    before the worker reaches [_on_composite_ready].  Every request returns
    null; one worker has been started and is running; the callbacks are
    attached in the order of the requests.  When that worker finishes with
    the composite [img], every attached callback has been invoked once, in
    that order, with [img]; the list is empty; any later request returns
    [img] at once and changes nothing.  What a request that overlaps the
    completion does is in [ThreadProofs]. *)
Lemma serial_requests_share_one_job s cbs cache' w' img :
  phase_of (sys_renderer s) = Idle →
  _callbacks (sys_renderer s) = [] →
  sys_running s = 0%nat →
  cbs ≠ [] →
  let s1 := (requests cbs s).1 in
  _generate_composite (sys_psd s1) (sys_renderer s1) (sys_cache s1) (sys_world s1)
  = (cache', w', Ok img) →
  let s2 := worker s1 in
  (requests cbs s).2 = replicate (length cbs) None
  ∧ sys_started s1 = S (sys_started s)
  ∧ sys_running s1 = 1%nat
  ∧ phase_of (sys_renderer s1) = Generating
  ∧ _callbacks (sys_renderer s1) = cbs
  ∧ sys_invoked s1 = sys_invoked s
  ∧ sys_invoked s2 = sys_invoked s ++ ((λ cb, (cb, img)) <$> cbs)
  ∧ _callbacks (sys_renderer s2) = []
  ∧ sys_started s2 = S (sys_started s)
  ∧ sys_running s2 = 0%nat
  ∧ (∀ cb, get_composite_image cb s2 = (s2, Some img)).
Proof.
  intros Hidle Hcbs Hrun Hne s1 Hgen s2.
  destruct cbs as [|cb cbs]; [done|].
  assert (requests (cb :: cbs) s
          = ({| sys_psd := sys_psd s; sys_cache := sys_cache s;
                sys_world := sys_world s;
                sys_renderer := {| filepath := filepath (sys_renderer s);
                                   _composite := None; _loading := true;
                                   _callbacks := cb :: cbs |};
                sys_started := S (sys_started s); sys_running := 1;
                sys_invoked := sys_invoked s |},
             replicate (length (cb :: cbs)) None)) as Hreq.
  { cbn [requests]. rewrite (request_when_idle _ _ Hidle), Hcbs, Hrun.
    rewrite requests_while_generating by done. reflexivity. }
  subst s2 s1. rewrite Hreq in *. cbn [fst snd] in *.
  repeat (split; [reflexivity|]).
  unfold worker. cbn [sys_psd sys_renderer sys_cache sys_world] in *.
  rewrite Hgen. unfold _on_composite_ready.
  cbn [sys_renderer sys_invoked sys_world _callbacks sys_psd sys_cache
       sys_started sys_running filepath].
  destruct (invoke_all (cb :: cbs) img (sys_invoked s) w') as [invoked w'']
    eqn:Hinv.
  assert (invoked = sys_invoked s ++ ((λ cb, (cb, img)) <$> cb :: cbs)) as ->.
  { change invoked with (invoked, w'').1. rewrite <- Hinv. apply invoke_all_trace. }
  cbn [sys_invoked sys_renderer _callbacks sys_started sys_running].
  do 4 (split; [reflexivity|]). reflexivity.
Qed.

(** C5 fails on the code.  When [_generate_composite] raises in the
    worker (a [ValueError], raised only when drawing the placeholder
    failed), nothing in the thread's target catches it: the worker ends
    without running [_on_composite_ready], so no callback is invoked and the
    renderer's fields stay as they were.  A renderer that was generating
    therefore stays so: each later request returns null, only attaches its
    callback and starts no worker.  The error is reported to no requester;
    [get_composite_image] itself raises nothing. *)
Theorem generation_error_ends_the_worker_silently s cache' w' e :
  _generate_composite (sys_psd s) (sys_renderer s) (sys_cache s) (sys_world s)
  = (cache', w', Raise e) →
  exc_type e = "ValueError"
  ∧ sys_renderer (worker s) = sys_renderer s
  ∧ sys_invoked (worker s) = sys_invoked s
  ∧ sys_started (worker s) = sys_started s
  ∧ (phase_of (sys_renderer s) = Generating →
     ∀ cb,
       let after := get_composite_image (Some cb) (worker s) in
       after.2 = None
       ∧ phase_of (sys_renderer after.1) = Generating
       ∧ _callbacks (sys_renderer after.1) = _callbacks (sys_renderer s) ++ [cb]
       ∧ sys_started after.1 = sys_started s
       ∧ sys_invoked after.1 = sys_invoked s).
Proof.
  intros Hgen. split; [by eapply generate_composite_raises|].
  unfold worker. rewrite Hgen. cbn [sys_renderer sys_invoked sys_started].
  do 3 (split; [reflexivity|]).
  intros Hph cb. cbv zeta.
  rewrite request_while_generating by done. by cbn.
Qed.

End Renderer.

Section Headless.
Import Sample.
#[local] Existing Instance headless.

(** On a machine without the default font the placeholder cannot be
    drawn: with two callbacks attached, the worker's [_generate_composite]
    raises, the worker ends, no callback has been invoked and the renderer
    is left generating with both still attached. *)
Lemma generation_error_reaches_no_callback :
  let s := (requests [on_ready; on_ready_closed] (boot bare_psd)).1 in
  (_generate_composite (sys_psd s) (sys_renderer s) (sys_cache s) (sys_world s)).2
  = Raise (Exn "ValueError" "Could not generate composite. Tried methods: ")
  ∧ _callbacks (sys_renderer s) = [on_ready; on_ready_closed]
  ∧ sys_invoked (worker s) = []
  ∧ _callbacks (sys_renderer (worker s)) = [on_ready; on_ready_closed]
  ∧ phase_of (sys_renderer (worker s)) = Generating.
Proof. repeat split; reflexivity. Qed.

Lemma generation_error_ends_the_worker_silently_witness :
  let s := (requests [on_ready; on_ready_closed] (boot bare_psd)).1 in
  sys_renderer (worker s) = sys_renderer s
  ∧ sys_invoked (worker s) = []
  ∧ ∀ cb, (get_composite_image (Some cb) (worker s)).2 = None.
Proof.
  intros s.
  destruct (generation_error_ends_the_worker_silently s
              (_generate_composite (sys_psd s) (sys_renderer s) (sys_cache s)
                 (sys_world s)).1.1
              (_generate_composite (sys_psd s) (sys_renderer s) (sys_cache s)
                 (sys_world s)).1.2
              (Exn "ValueError" "Could not generate composite. Tried methods: "))
    as (_ & Hr & Hinv & _ & Hlater).
  { reflexivity. }
  split; [exact Hr|]. split; [exact Hinv|].
  intros cb. apply (Hlater eq_refl cb).
Defined.

End Headless.
End RendererProofs.

(** * The renderer under interleaving *)

Module ThreadProofs.
Import OS Cache Rendering Threads RendererProofs.
Section Serial.
Context `{Externals}.

(** ** Serial runs are runs

    A call that is left alone from line 131 to its return does to the
    shared state what [get_composite_image] does, and returns what it
    returns; a worker that is left alone from the start of its target to
    its end does what [worker] does.  The serial steps of [step] are
    therefore schedules of the two threads: those in which a call and a
    completion do not overlap. *)
Lemma serial_call_is_a_run (t : Process) (callback : option Callback) :
  call t = None →
  ∃ t1, act (Call callback) t = Some t1
    ∧ alone 7 Interface t1
      = {| shared := (get_composite_image callback (shared t)).1;
           call := None;
           returned := returned t ++ [(get_composite_image callback (shared t)).2];
           workers := match phase_of (sys_renderer (shared t)) with
                      | Idle => workers t ++ [Generate]
                      | _ => workers t
                      end |}.
Proof.
  intros Hcall. unfold act. rewrite Hcall. eexists. split; [reflexivity|].
  destruct t as [s c rs ws]. simpl in Hcall. subst c.
  destruct s as [psd cache w [path comp loading cbs] started running invoked].
  unfold get_composite_image, phase_of.
  destruct comp as [img|]; [reflexivity|].
  destruct loading, callback as [cb|]; reflexivity.
Qed.

(** The loop of line 123 and line 128, left alone. *)
Lemma loop_alone (rest : list Callback) :
  ∀ (n i k : nat) (t : Process) (img : Image),
    workers t !! i = Some (L123 img k) →
    drop k (_callbacks (sys_renderer (shared t))) = rest →
    (length rest + 2 ≤ n)%nat →
    alone n (Worker i) t
    = {| shared :=
           let s := shared t in
           let r := sys_renderer s in
           {| sys_psd := sys_psd s; sys_cache := sys_cache s;
              sys_world := (invoke_all rest img (sys_invoked s) (sys_world s)).2;
              sys_renderer := {| filepath := filepath r; _composite := _composite r;
                                 _loading := _loading r; _callbacks := [] |};
              sys_started := sys_started s; sys_running := pred (sys_running s);
              sys_invoked := (invoke_all rest img (sys_invoked s) (sys_world s)).1 |};
         call := call t; returned := returned t;
         workers := <[i := Ended]> (workers t) |}.
Proof.
  induction rest as [|cb rest IH]; intros n i k t img Hpc Hdrop Hn.
  - destruct n as [|[|n]]; [simpl in Hn; lia..|].
    assert (i < length (workers t))%nat as Hi by by eapply lookup_lt_Some.
    assert (_callbacks (sys_renderer (shared t)) !! k = None) as Hk.
    { apply lookup_ge_None. apply drop_nil_inv in Hdrop. exact Hdrop. }
    cbn [alone act]. unfold worker_step at 1. rewrite Hpc, Hk.
    cbn [alone act]. unfold worker_step at 1. cbn [workers shared].
    rewrite list_lookup_insert_eq by done.
    destruct n as [|n]; cbn [alone act]; unfold worker_step; cbn [workers];
      rewrite ?list_lookup_insert_eq by (by rewrite length_insert);
      rewrite list_insert_insert_eq; reflexivity.
  - destruct n as [|n]; [simpl in Hn; lia|].
    assert (i < length (workers t))%nat as Hi by by eapply lookup_lt_Some.
    assert (_callbacks (sys_renderer (shared t)) !! k = Some cb) as Hk.
    { pose proof (lookup_drop (_callbacks (sys_renderer (shared t))) k 0) as Hl.
      rewrite Hdrop, Nat.add_0_r in Hl. by rewrite <- Hl. }
    cbn [alone act]. unfold worker_step at 1. rewrite Hpc, Hk.
    destruct (invoke_all [cb] img _ _) as [invoked w] eqn:Hone.
    rewrite (IH n i (S k) _ img).
    + cbn [shared call returned workers sys_psd sys_cache sys_world sys_renderer
           sys_started sys_running sys_invoked].
      rewrite list_insert_insert_eq. simpl in Hone. injection Hone as <- <-.
      reflexivity.
    + cbn [workers]. by rewrite list_lookup_insert_eq.
    + cbn [shared sys_renderer].
      rewrite (drop_S _ cb k Hk) in Hdrop. by injection Hdrop.
    + simpl in Hn. lia.
Qed.

Lemma alone_S (n : nat) (a : action) (t : Process) :
  alone (S n) a t = match act a t with Some t' => alone n a t' | None => t end.
Proof. reflexivity. Qed.

Lemma alone_ended (n i : nat) (t : Process) :
  workers t !! i = Some Ended → alone n (Worker i) t = t.
Proof.
  intros Hended. destruct n; [done|]. rewrite alone_S. unfold act, worker_step.
  by rewrite Hended.
Qed.

Lemma serial_completion_is_a_run (t : Process) (i : nat) :
  workers t !! i = Some Generate →
  alone (length (_callbacks (sys_renderer (shared t))) + 5) (Worker i) t
  = {| shared := worker (shared t); call := call t; returned := returned t;
       workers := <[i := Ended]> (workers t) |}.
Proof.
  intros Hpc.
  assert (i < length (workers t))%nat as Hi by by eapply lookup_lt_Some.
  replace (length (_callbacks (sys_renderer (shared t))) + 5)%nat
    with (S (S (S (length (_callbacks (sys_renderer (shared t))) + 2))))%nat by lia.
  rewrite alone_S. unfold act, worker_step at 1. rewrite Hpc. unfold worker.
  destruct (_generate_composite _ _ _ _) as [[cache w] [img|e]].
  - rewrite alone_S. unfold act, worker_step at 1. cbn [workers shared].
    rewrite list_lookup_insert_eq by done.
    rewrite alone_S. unfold act, worker_step at 1. cbn [workers shared].
    rewrite list_lookup_insert_eq by (by rewrite length_insert).
    rewrite !list_insert_insert_eq.
    rewrite (loop_alone (_callbacks (sys_renderer (shared t))) _ i 0 _ img).
    + unfold _on_composite_ready. cbn. rewrite list_insert_insert_eq.
      by destruct (invoke_all _ _ _ _).
    + cbn [workers]. by rewrite list_lookup_insert_eq.
    + cbn. by rewrite drop_0.
    + lia.
  - rewrite alone_ended; [reflexivity|].
    cbn [workers]. by rewrite list_lookup_insert_eq.
Qed.

(** ** Without a worker, runs are serial

    In a process whose workers have all ended and whose renderer is not
    idle (so that no call starts one), only the interface thread moves,
    and whatever the schedule, the shared state between two calls is one
    that serial requests reach. *)
Lemma steps_snoc s es s' e s'' :
  steps s es s' → step s' e s'' → steps s (es ++ [e]) s''.
Proof.
  induction 1 as [s|s e0 s1 es s2 Hstep _ IH]; intros Hlast; simpl.
  - econstructor; [exact Hlast|constructor].
  - econstructor; [exact Hstep|by apply IH].
Qed.

Definition in_serial_position (s0 : System) (ws0 : list worker_pc)
    (t : Process) : Prop :=
  workers t = ws0
  ∧ phase_of (sys_renderer (shared t)) ≠ Idle
  ∧ match call t with
    | None => ∃ es, steps s0 es (shared t)
    | Some (_, L131) => ∃ es, steps s0 es (shared t)
    | Some (_, L132) => ∃ es, steps s0 es (shared t)
    | Some (_, L134) =>
        (∃ es, steps s0 es (shared t))
        ∧ _composite (sys_renderer (shared t)) = None
    | Some (callback, L137) =>
        (∃ es, steps s0 (es ++ [Request callback]) (shared t))
        ∧ _loading (sys_renderer (shared t)) = true
    | Some (callback, L144) =>
        ∃ es, steps s0 (es ++ [Request callback]) (shared t)
    | Some (_, L138) | Some (_, L139) => False
    end.

Lemma request_step_while_loading s callback :
  _composite (sys_renderer s) = None →
  _loading (sys_renderer s) = true →
  step s (Request callback)
    (match callback with
     | Some cb =>
         set_fields s (_composite (sys_renderer s)) (_loading (sys_renderer s))
           (_callbacks (sys_renderer s) ++ [cb])
     | None => s
     end).
Proof.
  intros Hcomp Hload.
  pose proof (step_request s callback) as Hreq.
  unfold get_composite_image in Hreq. rewrite Hcomp, Hload in Hreq.
  cbn [negb fst] in Hreq. destruct callback as [cb|].
  - unfold set_fields. by rewrite Hcomp, Hload.
  - replace s with
      (set_renderer s {| filepath := filepath (sys_renderer s);
                         _composite := None; _loading := true;
                         _callbacks := _callbacks (sys_renderer s) |}) at 2;
      [exact Hreq|].
    destruct s as [? ? ? [? ? ? ?] ? ? ?]. simpl in *. by subst.
Qed.

Lemma in_serial_position_act s0 ws0 a t t' :
  Forall (λ pc, pc = Ended) ws0 →
  in_serial_position s0 ws0 t → act a t = Some t' → in_serial_position s0 ws0 t'.
Proof.
  intros Hended (Hws & Hphase & Hcall) Hact. destruct a as [callback| |i].
  - unfold act in Hact. destruct (call t) as [c|] eqn:Hc; [done|].
    injection Hact as <-. by repeat split.
  - unfold act, interface_step in Hact.
    destruct (call t) as [[callback pc]|] eqn:Hc; [|done].
    cbv zeta in Hact. destruct pc.
    + destruct (_composite (sys_renderer (shared t))) as [img|] eqn:Hcomp;
        cbn [present] in Hact; injection Hact as <-.
      * by repeat split.
      * split; [done|]. split; [done|]. cbn [call shared]. by split.
    + injection Hact as <-. by repeat split.
    + destruct Hcall as [[es Hes] Hcomp].
      assert (_loading (sys_renderer (shared t)) = true) as Hload.
      { unfold phase_of in Hphase. rewrite Hcomp in Hphase.
        by destruct (_loading (sys_renderer (shared t))). }
      pose proof (request_step_while_loading _ callback Hcomp Hload) as Hstep.
      destruct callback as [cb|]; injection Hact as <-.
      * split; [done|]. split.
        { unfold phase_of. cbn. by rewrite Hcomp, Hload. }
        cbn [call shared]. split; [|cbn; exact Hload].
        exists es. by eapply steps_snoc.
      * split; [done|]. split; [done|]. cbn [call shared]. split; [|done].
        exists es. by eapply steps_snoc.
    + destruct Hcall as [Hes Hload]. rewrite Hload in Hact. cbn [negb] in Hact.
      injection Hact as <-. by repeat split.
    + done.
    + done.
    + injection Hact as <-. split; [done|]. split; [done|].
      cbn [call shared]. destruct Hcall as [es Hes]. by eexists.
  - unfold act, worker_step in Hact.
    destruct (workers t !! i) as [pc|] eqn:Hi; [|done].
    assert (pc = Ended) as ->.
    { rewrite Hws in Hi.
      by eapply (proj1 (Forall_forall _ _) Hended), list_elem_of_lookup_2. }
    done.
Qed.

Lemma runs_without_worker_are_serial (t : Process) schedule t' :
  call t = None →
  Forall (λ pc, pc = Ended) (workers t) →
  phase_of (sys_renderer (shared t)) ≠ Idle →
  play schedule t = Some t' →
  workers t' = workers t
  ∧ (call t' = None → ∃ es, steps (shared t) es (shared t')).
Proof.
  intros Hcall Hended Hphase Hplay.
  assert (in_serial_position (shared t) (workers t) t) as Hstart.
  { split; [done|]. split; [done|]. rewrite Hcall. exists []. constructor. }
  assert (in_serial_position (shared t) (workers t) t') as (Hws & _ & Hend).
  { clear Hcall Hphase. revert Hstart Hplay Hended.
    generalize (shared t) as s0. generalize (workers t) as ws0. revert t.
    induction schedule as [|a schedule IH]; intros t ws0 s0 Hpos Hplay Hended;
      simpl in Hplay.
    - by injection Hplay as <-.
    - destruct (act a t) as [t1|] eqn:Hact; [|done].
      apply (IH t1); [|done|done]. by eapply in_serial_position_act. }
  split; [done|]. intros Hnone. by rewrite Hnone in Hend.
Qed.

End Serial.

Section WithPillow.
Import Sample.
#[local] Existing Instance pillow.

(** C4 fails on the code.  A fresh renderer for the three-layer document
    gets two calls, the second while the first worker is still generating:
    it passes line 131 and appends its callback (line 135).  Then the
    worker completes: it sets the composite (line 121) and resets
    [_loading] (line 122).  The second call goes on at line 137, finds
    [_loading] false, sets it and starts a second worker (lines 138-142)
    while the first is still in its loop: two generations started, two
    threads running, for two calls issued before the first generation
    completed.  Both callbacks are invoked once, by the first worker; the
    second worker generates the composite again and invokes nothing.

    When the first worker has left its loop but not yet executed line
    128 at the time the second call appends its callback, line 128 empties
    the list and the callback is lost: the second call has returned null,
    both workers have ended, and its callback has not been invoked. *)
Theorem overlapping_request_starts_a_second_job :
  let img := Over (Over (New "RGBA" 4 4 [0; 0; 0; 0]) (Bitmap 2 4 4) (0, 0))
               (Bitmap 3 2 2) (1, 1) in
  let fresh := at_rest (boot layered_psd) in
  let seen (t : Process) :=
    (call t, returned t, workers t, sys_started (shared t),
     sys_running (shared t), _composite (sys_renderer (shared t)),
     _callbacks (sys_renderer (shared t)), sys_invoked (shared t)) in
  let first_call := Call (Some on_ready) :: replicate 6 Interface in
  let overlap :=
    first_call ++ [Call (Some on_ready_closed); Interface; Interface]
    ++ replicate 3 (Worker 0) ++ replicate 3 Interface in
  let rest := [Interface] ++ replicate 4 (Worker 0) ++ replicate 5 (Worker 1) in
  let lost :=
    first_call ++ [Call (Some on_ready_closed); Interface]
    ++ replicate 5 (Worker 0) ++ replicate 5 Interface
    ++ [Worker 0] ++ replicate 5 (Worker 1) in
  seen <$> play overlap fresh
  = Some (Some (Some on_ready_closed, L144), [None], [L123 img 0; Generate],
          2%nat, 2%nat, Some img, [on_ready; on_ready_closed], [])
  ∧ seen <$> play (overlap ++ rest) fresh
    = Some (None, [None; None], [Ended; Ended], 2%nat, 0%nat, Some img, [],
            [(on_ready, img); (on_ready_closed, img)])
  ∧ seen <$> play lost fresh
    = Some (None, [None; None], [Ended; Ended], 2%nat, 0%nat, Some img, [],
            [(on_ready, img)]).
Proof.
  intros img fresh seen first_call overlap rest lost.
  split; [vm_compute; reflexivity|]. split; vm_compute; reflexivity.
Qed.

End WithPillow.
End ThreadProofs.

(** * Properties of [set_layer_visibility] *)

Module DocumentProofs.
Import OS Cache Rendering Document.
Section Visibility.
Context `{Externals}.

(** Induction on a layer tree, with the property known of every child. *)
Section LayerInduction.
Variable P : Layer → Prop.
Hypothesis Hleaf : ∀ n v t x y w h, P (mkLayer n v t x y w h None).
Hypothesis Hgroup :
  ∀ n v t x y w h ch, Forall P ch → P (mkLayer n v t x y w h (Some ch)).

Fixpoint Layer_tree_ind (l : Layer) : P l :=
  match l with
  | mkLayer n v t x y w h None => Hleaf n v t x y w h
  | mkLayer n v t x y w h (Some ch) =>
      Hgroup n v t x y w h ch
        ((fix children (ch : list Layer) : Forall P ch :=
            match ch with
            | [] => List.Forall_nil P
            | c :: ch' => @List.Forall_cons _ P c ch' (Layer_tree_ind c) (children ch')
            end) ch)
  end.
End LayerInduction.

(** What a search that returned [hit] did to the layers [old], listed
    parents first: on a hit, the first layer called [name] is the only one
    whose flag moved, and it is now [v]; on a miss nothing is called
    [name]. *)
Definition outcome (name : string) (v : bool) (hit : bool)
    (old new : list Layer) : Prop :=
  if hit then
    ∃ before target after,
      old = before ++ target :: after
      ∧ layer_name target = Some name
      ∧ Forall (λ x, layer_name x ≠ Some name) before
      ∧ layer_visible <$> new
        = (layer_visible <$> before) ++ Some v :: (layer_visible <$> after)
  else
    new = old ∧ Forall (λ x, layer_name x ≠ Some name) old.

Lemma first_hit_outcome name v (ls : list Layer) :
  Forall (λ l, ∀ hit l', set_visibility l name v = Ok (hit, l') →
                erase_visible l' = erase_visible l
                ∧ (hit = false → l' = l)
                ∧ outcome name v hit (preorder l) (preorder l')) ls →
  ∀ hit ls',
    first_hit (λ l, set_visibility l name v) ls = Ok (hit, ls') →
    map erase_visible ls' = map erase_visible ls
    ∧ (hit = false → ls' = ls)
    ∧ outcome name v hit (flat_map preorder ls) (flat_map preorder ls').
Proof.
  induction 1 as [|c rest Hc _ IH]; intros hit ls'; simpl.
  { intros [= <- <-]. repeat split; constructor. }
  destruct (set_visibility c name v) as [[h c']|e] eqn:Hset; [|done].
  destruct (Hc _ _ eq_refl) as (Herase & Hsame & Hout).
  cbn [mbind result_bind]. destruct h.
  - intros [= <- <-]. simpl. split; [by rewrite Herase|]. split; [done|].
    destruct Hout as (b & t & a & Hpre & Hname & Hb & Hvis).
    exists b, t, (a ++ flat_map preorder rest).
    rewrite Hpre, <- app_assoc. split; [done|]. split; [done|]. split; [done|].
    by rewrite !fmap_app, Hvis, <- app_assoc.
  - rewrite (Hsame eq_refl) in *. destruct Hout as [_ Hnone].
    destruct (first_hit _ rest) as [[h' rest']|e] eqn:Hrest; [|done].
    intros [= <- <-]. destruct (IH _ _ eq_refl) as (Herase' & Hsame' & Hout').
    simpl. split; [by rewrite Herase'|]. split; [by intros ->%Hsame'|].
    destruct h'.
    + destruct Hout' as (b & t & a & Hpre & Hname & Hb & Hvis).
      exists (preorder c ++ b), t, a.
      rewrite Hpre, <- app_assoc. split; [done|]. split; [done|].
      split; [by apply Forall_app|].
      rewrite !fmap_app, Hvis, <- app_assoc. done.
    + destruct Hout' as [-> Hnone']. split; [done|]. by apply Forall_app.
Qed.

Lemma set_visibility_outcome name v (l : Layer) :
  ∀ hit l', set_visibility l name v = Ok (hit, l') →
    erase_visible l' = erase_visible l
    ∧ (hit = false → l' = l)
    ∧ outcome name v hit (preorder l) (preorder l').
Proof.
  induction l as [n vis t x y w h|n vis t x y w h ch IH] using Layer_tree_ind;
    intros hit l'; simpl.
  - destruct n as [n|]; [|done]. destruct (String.eqb n name) eqn:Hn.
    + apply String.eqb_eq in Hn as ->. intros [= <- <-]. simpl.
      split; [done|]. split; [done|].
      eexists [], _, []. simpl. repeat split; constructor.
    + apply String.eqb_neq in Hn. intros [= <- <-]. simpl.
      split; [done|]. split; [done|]. split; [done|].
      constructor; [|constructor]. simpl. congruence.
  - destruct n as [n|]; [|done]. destruct (String.eqb n name) eqn:Hn.
    + apply String.eqb_eq in Hn as ->. intros [= <- <-]. simpl.
      split; [done|]. split; [done|].
      eexists [], _, (flat_map preorder ch). simpl. repeat split; constructor.
    + apply String.eqb_neq in Hn.
      destruct (first_hit _ ch) as [[h' ch']|e] eqn:Hch; [|done].
      intros [= <- <-].
      destruct (first_hit_outcome name v ch IH _ _ Hch) as (Herase & Hsame & Hout).
      simpl. split; [by rewrite Herase|]. split; [by intros ->%Hsame|].
      destruct h'.
      * destruct Hout as (b & tg & a & Hpre & Hname & Hb & Hvis).
        eexists (_ :: b), tg, a. rewrite Hpre. split; [done|]. split; [done|].
        split; [constructor; [simpl; congruence|done]|].
        rewrite !fmap_cons, Hvis. done.
      * destruct Hout as [_ Hnone]. rewrite (Hsame eq_refl). split; [done|].
        constructor; [simpl; congruence|done].
Qed.

Lemma set_layers_same (p : PSD) : set_layers p (psd_layers p) = p.
Proof. by destruct p. Qed.

(** C9.  Visibility mutation independence.  A call of
    [set_layer_visibility] that returns leaves the document's file path,
    renderer and render mode as they were, and a miss leaves the whole
    document as it was.  In the document object nothing but [visible]
    flags can differ, and on a hit exactly one does: that of the first
    layer called [layer_name], searching each group before the layers after
    it.  The renderer is not touched: one that holds a composite returns
    that same bitmap for the mutated document, starts nothing, and the
    cache and the files are as before. *)
Theorem set_layer_visibility_keeps_composites doc name v hit doc' :
  set_layer_visibility doc name v = Ok (hit, doc') →
  doc_filepath doc' = doc_filepath doc
  ∧ _renderer doc' = _renderer doc
  ∧ _render_mode doc' = _render_mode doc
  ∧ (hit = false → doc' = doc)
  ∧ (psd doc = None → psd doc' = None)
  ∧ ∀ p, psd doc = Some p →
      ∃ p', psd doc' = Some p'
        ∧ set_layers p' None = set_layers p None
        ∧ map erase_visible <$> psd_layers p' = map erase_visible <$> psd_layers p
        ∧ outcome name v hit (all_layers p) (all_layers p')
        ∧ ∀ s img cb,
            sys_psd s = p →
            _renderer doc = Some (sys_renderer s) →
            _composite (sys_renderer s) = Some img →
            get_composite_image cb s = (s, Some img)
            ∧ get_composite_image cb (with_psd s p') = (with_psd s p', Some img)
            ∧ sys_cache (with_psd s p') = sys_cache s
            ∧ sys_world (with_psd s p') = sys_world s.
Proof.
  unfold set_layer_visibility. destruct (psd doc) as [p|] eqn:Hp.
  2:{ intros [= <- <-]. repeat split; try done. }
  destruct (first_hit _ _) as [[h ls']|e] eqn:Hfh; [|done].
  intros [= <- <-]. cbn [doc_filepath _renderer _render_mode psd].
  assert (Forall (λ l, ∀ hit l', set_visibility l name v = Ok (hit, l') →
                        erase_visible l' = erase_visible l
                        ∧ (hit = false → l' = l)
                        ∧ outcome name v hit (preorder l) (preorder l'))
            (default [] (psd_layers p))) as HF.
  { apply Forall_forall. intros l _. apply set_visibility_outcome. }
  destruct (first_hit_outcome name v _ HF _ _ Hfh) as (Herase & Hsame & Hout).
  do 3 (split; [reflexivity|]). split.
  { intros ->. rewrite (Hsame eq_refl).
    replace ((λ _, default [] (psd_layers p)) <$> psd_layers p)
      with (psd_layers p) by by destruct (psd_layers p).
    rewrite set_layers_same. destruct doc; simpl in *. by rewrite Hp. }
  split; [done|]. intros ? [= <-].
  eexists. split; [reflexivity|]. split; [reflexivity|].
  split; [|split].
  - cbn [set_layers psd_layers]. destruct (psd_layers p); simpl in *; [|done].
    by rewrite Herase.
  - unfold all_layers. cbn [set_layers psd_layers].
    destruct (psd_layers p); simpl in *; [done|].
    destruct h; [|by destruct Hout].
    destruct Hout as (b & t & a & Hpre & _). by destruct b.
  - intros s img cb _ _ Himg. unfold get_composite_image, with_psd.
    cbn [sys_renderer sys_cache sys_world]. by rewrite Himg.
Qed.

End Visibility.

Section WithPillow.
Import Sample.
#[local] Existing Instance pillow.

Lemma set_layer_visibility_keeps_composites_witness :
  let p' := set_layers grouped_psd
              (Some [ {| layer_name := Some "header";
                         layer_visible := Some true;
                         layer_topil := Some (Ok (Some (Bitmap 10 4 4)));
                         layer_left := Some 0; layer_top := Some 0;
                         layer_width := Some 4; layer_height := Some 4;
                         layer_children :=
                           Some [leaf "caption" true 11; leaf "logo" false 12] |};
                      leaf "logo" true 13; leaf "paper" true 14 ]) in
  let doc' := {| doc_filepath := Some "poster.psd"; psd := Some p';
                 _renderer := Some ready_renderer; _render_mode := "full" |} in
  set_layer_visibility grouped_doc "logo" false = Ok (true, doc')
  ∧ _renderer doc' = _renderer grouped_doc
  ∧ ∀ cb, get_composite_image cb (with_psd grouped_system p')
          = (with_psd grouped_system p', Some (Bitmap 20 4 4)).
Proof.
  intros p' doc'.
  assert (set_layer_visibility grouped_doc "logo" false = Ok (true, doc')) as Hset
    by reflexivity.
  split; [exact Hset|].
  destruct (set_layer_visibility_keeps_composites _ _ _ _ _ Hset)
    as (_ & Hr & _ & _ & _ & Hp).
  split; [exact Hr|].
  destruct (Hp grouped_psd eq_refl) as (q & Hq & _ & _ & _ & Hs).
  injection Hq as <-. intros cb.
  apply (Hs grouped_system (Bitmap 20 4 4) cb eq_refl eq_refl eq_refl).
Defined.

End WithPillow.
End DocumentProofs.

(** * More about the file cache *)

Module CacheMore.
Import OS Cache CacheProofs.
Section CacheMore.
Context `{Externals}.

(** ** The index across restarts *)

(** [_save_metadata] followed by a new [PSDFileCache] over the same
    directory: the new object holds the saved index, under the default
    budget, and creating it changes nothing. *)
Theorem metadata_survives_restart self w :
  metadata_file self = path_join (cache_dir self) "metadata.json" →
  (∀ f, fs w !! metadata_file self = Some f → f_locked f = false) →
  json_load (json_dump (metadata self)) = Ok (metadata self) →
  Cache.init (cache_dir self) (_save_metadata self w)
  = ({| cache_dir := cache_dir self; metadata_file := metadata_file self;
        metadata := metadata self; max_cache_size := 1024 * 1024 * 1024 |},
     _save_metadata self w).
Proof.
  intros Hfile Hfree Hjson.
  destruct (write_unlocked w (metadata_file self) (json_dump (metadata self)) Hfree)
    as (nf & Hwrite & Hdata & _).
  unfold _save_metadata. rewrite Hwrite. unfold Cache.init, _load_metadata.
  rewrite <- Hfile. cbn [fs set_fs]. rewrite lookup_insert_eq, Hdata, Hjson.
  reflexivity.
Qed.

(** ** A source file that does not exist *)

(** Without the source file the cache path cannot be computed:
    [get_cached_image] lets the [FileNotFoundError] of [os.stat] out to its
    caller, while [save_image_to_cache] swallows it, logs one error and
    leaves the cache object, the files and the clock as they were. *)
Theorem missing_source self w filepath suffix image :
  fs w !! filepath = None →
  ∃ e, exc_type e = "FileNotFoundError"
       ∧ get_cache_path self w filepath suffix = Raise e
       ∧ get_cached_image self w filepath suffix = (w, Raise e)
       ∧ save_image_to_cache self w image filepath suffix
         = (self, emit ERROR ("Failed to save image to cache: " +:+ exc_msg e) w).
Proof.
  intros Hnone. eexists. split; [|split; [|split]].
  2:{ unfold get_cache_path, _get_file_hash, stat. rewrite Hnone. reflexivity. }
  - reflexivity.
  - unfold get_cached_image, get_cache_path, _get_file_hash, stat.
    by rewrite Hnone.
  - unfold save_image_to_cache, get_cache_path, _get_file_hash, stat.
    by rewrite Hnone.
Qed.

(** ** What a save changes *)

Lemma write_fresh w p data :
  (∀ f, fs w !! p = Some f → f_locked f = false) →
  ∃ nf, write w p data = Ok (set_fs w (<[p := nf]> (fs w)))
        ∧ f_content nf = data ∧ st_mtime nf = clock w ∧ f_locked nf = false.
Proof.
  intros Hfree. unfold write. destruct (fs w !! p) as [f|] eqn:Hf.
  - rewrite (Hfree f eq_refl). by eexists.
  - by eexists.
Qed.

Lemma write_inv w p data w' :
  write w p data = Ok w' →
  ∃ nf, w' = set_fs w (<[p := nf]> (fs w))
        ∧ f_content nf = data ∧ f_locked nf = false.
Proof.
  unfold write. destruct (fs w !! p) as [f|].
  - destruct (f_locked f); [done|]. intros [= <-]. by eexists.
  - intros [= <-]. by eexists.
Qed.

Lemma sweep_clock limit files total w :
  clock (sweep limit files total w) = clock w.
Proof.
  revert total w. induction files as [|[f a] rest IH]; intros total w; simpl; [done|].
  destruct (total <=? limit); [done|]. unfold stat, remove.
  destruct (fs w !! f) as [st|]; [|by rewrite IH].
  destruct (f_locked st); by rewrite IH.
Qed.

Lemma cleanup_clock self w : clock (_cleanup_cache self w) = clock w.
Proof. unfold _cleanup_cache. destruct (_ <=? _); [done|apply sweep_clock]. Qed.

Lemma save_metadata_clock self w : clock (_save_metadata self w) = clock w.
Proof.
  unfold _save_metadata, write.
  destruct (fs w !! metadata_file self) as [f|]; [destruct (f_locked f)|]; done.
Qed.

(** The three ways [save_image_to_cache] can end: it fails before it
    writes, it fails after the write, or it runs to the sweep. *)
Lemma save_image_to_cache_cases self w image filepath suffix :
  (∃ e, save_image_to_cache self w image filepath suffix
        = (self, emit ERROR ("Failed to save image to cache: " +:+ exc_msg e) w))
  ∨ ∃ cpath data nf,
      get_cache_path self w filepath suffix = Ok cpath
      ∧ png_encode image = Ok data
      ∧ f_content nf = data ∧ f_locked nf = false
      ∧ ((∃ e, save_image_to_cache self w image filepath suffix
               = (self, emit ERROR ("Failed to save image to cache: " +:+ exc_msg e)
                          (set_fs w (<[cpath := nf]> (fs w)))))
         ∨ ∃ m, save_image_to_cache self w image filepath suffix
                = (set_metadata self m,
                   _cleanup_cache (set_metadata self m)
                     (_save_metadata (set_metadata self m)
                        (set_fs w (<[cpath := nf]> (fs w)))))).
Proof.
  unfold save_image_to_cache.
  destruct (get_cache_path self w filepath suffix) as [cpath|e]; [|left; by eexists].
  destruct (png_encode image) as [data|e]; [|left; by eexists].
  destruct (write w cpath data) as [w1|e] eqn:Hw; [|left; by eexists].
  apply write_inv in Hw as (nf & -> & Hdata & Hlock).
  right. exists cpath, data, nf. do 4 (split; [done|]).
  destruct (_get_file_hash _ filepath) as [h|e]; [|left; by eexists].
  destruct (stat _ cpath) as [cfile|e]; [|left; by eexists].
  right. by eexists.
Qed.

Lemma cache_path_below self w filepath suffix cpath :
  get_cache_path self w filepath suffix = Ok cpath →
  String.prefix (cache_dir self +:+ "/") cpath = true.
Proof.
  unfold get_cache_path. destruct (_get_file_hash w filepath); [|done].
  intros [= <-]. apply path_join_below.
Qed.

Lemma save_frame self w image filepath suffix p :
  metadata_file self = path_join (cache_dir self) "metadata.json" →
  String.prefix (cache_dir self +:+ "/") p = false →
  fs (save_image_to_cache self w image filepath suffix).2 !! p = fs w !! p
  ∧ clock (save_image_to_cache self w image filepath suffix).2 = clock w.
Proof.
  intros Hindex Hout.
  destruct (save_image_to_cache_cases self w image filepath suffix)
    as [[e ->]|(cpath & data & nf & Hpath & _ & _ & _ & [[e ->]|[m ->]])];
    cbn [snd]; [done| |].
  - cbn [fs emit set_fs clock]. split; [|done]. apply lookup_insert_ne.
    intros <-. apply cache_path_below in Hpath. congruence.
  - rewrite cleanup_clock, save_metadata_clock. split; [|done].
    destruct (cleanup_lookup (set_metadata self m)
                (_save_metadata (set_metadata self m)
                   (set_fs w (<[cpath:=nf]> (fs w)))) p)
      as [->|(_ & _ & Hin & _)]; [|cbn in Hin; congruence].
    rewrite save_metadata_lookup.
    + cbn [fs set_fs]. apply lookup_insert_ne.
      intros <-. apply cache_path_below in Hpath. congruence.
    + cbn [metadata_file set_metadata]. rewrite Hindex. intros ->.
      rewrite path_join_below in Hout. done.
Qed.

(** ** Saving and reading, composed *)

Lemma get_cache_path_agrees self1 w1 self2 w2 filepath suffix :
  cache_dir self1 = cache_dir self2 →
  fs w1 !! filepath = fs w2 !! filepath →
  get_cache_path self1 w1 filepath suffix = get_cache_path self2 w2 filepath suffix.
Proof.
  intros Hdir Hfile. unfold get_cache_path, _get_file_hash, stat.
  by rewrite Hdir, Hfile.
Qed.

Lemma get_cached_image_hit self w filepath suffix src cpath cfile img :
  fs w !! filepath = Some src →
  get_cache_path self w filepath suffix = Ok cpath →
  fs w !! cpath = Some cfile →
  st_mtime src ≤ st_mtime cfile →
  Image_open (f_content cfile) = Ok img →
  get_cached_image self w filepath suffix = (w, Ok (Some img)).
Proof.
  intros Hsrc Hpath Hentry Hfresh Hopen. unfold get_cached_image.
  unfold exists_, getmtime, stat. rewrite Hpath, Hsrc, Hentry.
  rewrite bool_decide_eq_true_2 by eauto. cbn [negb].
  rewrite (proj2 (Z.ltb_ge _ _)) by lia. by rewrite Hopen.
Qed.

(** What is known after a save of a source outside the cache directory
    into a slot that can be written. *)
Lemma save_outcome self w image filepath suffix src cpath :
  fs w !! filepath = Some src →
  get_cache_path self w filepath suffix = Ok cpath →
  metadata_file self = path_join (cache_dir self) "metadata.json" →
  String.prefix (cache_dir self +:+ "/") filepath = false →
  (∀ f, fs w !! cpath = Some f → f_locked f = false) →
  fs (save_image_to_cache self w image filepath suffix).2 !! filepath = Some src
  ∧ clock (save_image_to_cache self w image filepath suffix).2 = clock w
  ∧ cache_dir (save_image_to_cache self w image filepath suffix).1 = cache_dir self
  ∧ metadata_file (save_image_to_cache self w image filepath suffix).1
    = metadata_file self
  ∧ ∀ f, fs (save_image_to_cache self w image filepath suffix).2 !! cpath = Some f →
         f_locked f = false
         ∧ ∀ data, png_encode image = Ok data →
                   f_content f = data ∧ st_mtime f = clock w.
Proof.
  intros Hsrc Hpath Hindex Hout Hfree.
  destruct (save_frame self w image filepath suffix filepath Hindex Hout)
    as [Hkept Hclock].
  rewrite Hkept, Hclock. do 2 (split; [done|]).
  assert (cpath ≠ metadata_file self) as Hne.
  { unfold get_cache_path in Hpath.
    destruct (_get_file_hash w filepath) as [h|]; [|done].
    injection Hpath as <-. rewrite Hindex, <- append_assoc.
    apply entry_is_not_the_index. }
  unfold save_image_to_cache. rewrite Hpath.
  destruct (png_encode image) as [data|e] eqn:Henc.
  2:{ cbn. do 2 (split; [done|]). intros f Hf. split; [by eapply Hfree|done]. }
  destruct (write_fresh w cpath data Hfree) as (nf & -> & Hdata & Hmtime & Hlock).
  destruct (_get_file_hash _ filepath) as [h|e].
  2:{ cbn. do 2 (split; [done|]). rewrite lookup_insert_eq. intros f [= <-].
      split; [done|]. by intros ? [= <-]. }
  destruct (stat _ cpath) as [cfile|e].
  2:{ cbn. do 2 (split; [done|]). rewrite lookup_insert_eq. intros f [= <-].
      split; [done|]. by intros ? [= <-]. }
  cbn [fst snd cache_dir metadata_file set_metadata]. do 2 (split; [done|]).
  intros f Hf.
  match type of Hf with
  | fs (_cleanup_cache ?s ?w2) !! _ = _ =>
      destruct (cleanup_lookup s w2 cpath) as [Heq|[Hnone _]];
        [rewrite Heq in Hf|congruence]
  end.
  rewrite save_metadata_lookup in Hf by done. cbn [fs set_fs] in Hf.
  rewrite lookup_insert_eq in Hf. injection Hf as <-.
  split; [done|]. by intros ? [= <-].
Qed.

(** The last save wins.  Two saves for the same source and variant, one
    after the other, then a lookup: under the conditions of a single round
    trip for the second bitmap (the encoder accepts it and the decoder
    gives it back, the source is outside the cache directory and not dated
    ahead of the clock, the slot can be written, the second sweep keeps the
    entry), the lookup returns the second bitmap, whatever the first save
    did. *)
Theorem last_save_wins self w image1 image2 filepath suffix src cpath data :
  fs w !! filepath = Some src →
  get_cache_path self w filepath suffix = Ok cpath →
  metadata_file self = path_join (cache_dir self) "metadata.json" →
  String.prefix (cache_dir self +:+ "/") filepath = false →
  png_encode image2 = Ok data →
  Image_open data = Ok image2 →
  (∀ f, fs w !! cpath = Some f → f_locked f = false) →
  st_mtime src ≤ clock w →
  let first := save_image_to_cache self w image1 filepath suffix in
  let second := save_image_to_cache first.1 first.2 image2 filepath suffix in
  is_Some (fs second.2 !! cpath) →
  get_cached_image second.1 second.2 filepath suffix
  = (second.2, Ok (Some image2)).
Proof.
  intros Hsrc Hpath Hindex Hout Henc Hdec Hfree Hpast first second [f Hf].
  destruct (save_outcome self w image1 filepath suffix src cpath
              Hsrc Hpath Hindex Hout Hfree)
    as (Hsrc1 & Hclock1 & Hdir1 & Hindex1 & Hfree1).
  fold first in Hsrc1, Hclock1, Hdir1, Hindex1, Hfree1.
  assert (get_cache_path first.1 first.2 filepath suffix = Ok cpath) as Hpath1.
  { rewrite <- Hpath. apply get_cache_path_agrees; [done|]. by rewrite Hsrc1. }
  destruct (save_outcome first.1 first.2 image2 filepath suffix src cpath)
    as (Hsrc2 & Hclock2 & Hdir2 & _ & Hfresh); try done.
  { by rewrite Hindex1, Hdir1. }
  { by rewrite Hdir1. }
  { intros g Hg. by apply Hfree1. }
  fold second in Hsrc2, Hclock2, Hdir2, Hfresh.
  destruct (Hfresh f Hf) as [_ Hnew]. destruct (Hnew data Henc) as [Hdata Hmtime].
  eapply get_cached_image_hit; [exact Hsrc2| |exact Hf| |].
  - rewrite <- Hpath1. apply get_cache_path_agrees; [done|]. by rewrite Hsrc2.
  - rewrite Hmtime, Hclock1. done.
  - by rewrite Hdata.
Qed.

(** ** The sweep, twice *)

Lemma foldr_delete_lookup_Some (m : gmap string File) ps p f :
  foldr delete m ps !! p = Some f → (p ∉ ps) ∧ m !! p = Some f.
Proof.
  induction ps as [|q ps IH]; simpl; [by intros ?; split; [apply not_elem_of_nil|]|].
  intros Hf. destruct (decide (p = q)) as [->|Hne].
  - by rewrite lookup_delete_eq in Hf.
  - rewrite lookup_delete_ne in Hf by done. destruct (IH Hf) as [? ?].
    split; [|done]. by apply not_elem_of_cons.
Qed.

(** Running the sweep a second time changes nothing, when the operating
    system refuses no removal of an image file: the first run ends within
    the budget or with no image file left to remove. *)
Theorem cleanup_is_idempotent self w :
  (∀ p f, fs w !! p = Some f →
          String.prefix (cache_dir self +:+ "/") p = true →
          is_candidate p = true → f_locked f = false) →
  _cleanup_cache self (_cleanup_cache self w) = _cleanup_cache self w.
Proof.
  intros Hfree.
  destruct (total_size w (cache_dir self) <=? max_cache_size self) eqn:Hover.
  { unfold _cleanup_cache. by rewrite !Hover. }
  assert (∀ p a, (p, a) ∈ sort_by_atime (candidates w (cache_dir self))
                 ↔ ∃ f, fs w !! p = Some f
                        ∧ String.prefix (cache_dir self +:+ "/") p = true
                        ∧ is_candidate p = true ∧ a = st_atime f) as Hmem.
  { intros p a. by rewrite sort_by_atime_perm, candidates_elem. }
  assert (NoDup (sort_by_atime (candidates w (cache_dir self))).*1) as Hnd.
  { rewrite sort_by_atime_perm. apply candidates_NoDup. }
  destruct (sweep_spec (max_cache_size self)
              (sort_by_atime (candidates w (cache_dir self)))
              (total_size w (cache_dir self)) w Hnd)
    as (removed & kept & Hsplit & Hsweep & Hstop & _).
  { intros p ([q a] & -> & Hin)%list_elem_of_fmap.
    apply Hmem in Hin as (f & Hf & ? & ? & _). exists f. split; [done|].
    by eapply Hfree. }
  assert (total_size (set_fs w (foldr delete (fs w) removed.*1)) (cache_dir self)
          = total_size w (cache_dir self) - sizes (fs w) removed) as Htotal.
  { apply total_size_deletes.
    - rewrite Hsplit, fmap_app in Hnd. by apply NoDup_app in Hnd as [? _].
    - intros p ([q a] & -> & Hin)%list_elem_of_fmap.
      destruct (proj1 (Hmem q a)) as (f & Hf & ? & _); [|by eauto].
      rewrite Hsplit. apply elem_of_app. by left. }
  assert (_cleanup_cache self w = set_fs w (foldr delete (fs w) removed.*1)) as ->.
  { unfold _cleanup_cache. by rewrite Hover. }
  unfold _cleanup_cache. rewrite Htotal.
  destruct (total_size w (cache_dir self) - sizes (fs w) removed
            <=? max_cache_size self) eqn:Hagain; [done|].
  apply Z.leb_gt in Hagain. destruct Hstop as [?|Hkept]; [lia|]. subst kept.
  rewrite app_nil_r in Hsplit.
  assert (candidates (set_fs w (foldr delete (fs w) removed.*1)) (cache_dir self)
          = []) as ->; [|reflexivity].
  destruct (candidates (set_fs w (foldr delete (fs w) removed.*1)) (cache_dir self))
    as [|[p a] rest] eqn:Hc; [reflexivity|]. exfalso.
  assert ((p, a) ∈ candidates (set_fs w (foldr delete (fs w) removed.*1))
                     (cache_dir self)) as Hin by (rewrite Hc; by left).
  apply candidates_elem in Hin as (f & Hf & Hpre & Hcand & ->).
  cbn [fs set_fs] in Hf. apply foldr_delete_lookup_Some in Hf as [Hnot Hf].
  apply Hnot. apply list_elem_of_fmap. exists (p, st_atime f). split; [done|].
  rewrite <- Hsplit. apply Hmem. by exists f.
Qed.

(** ** The order of eviction *)

Lemma insert_by_atime_filter a x l :
  List.filter (λ y, y.2 =? a) (insert_by_atime x l)
  = List.filter (λ y : string * Z, y.2 =? a) (x :: l).
Proof.
  induction l as [|y l IH]; [done|]. cbn [insert_by_atime].
  destruct (x.2 <=? y.2) eqn:Hxy; [done|]. apply Z.leb_gt in Hxy.
  cbn [List.filter] in *. rewrite IH.
  destruct (x.2 =? a) eqn:Hx, (y.2 =? a) eqn:Hy; try done.
  apply Z.eqb_eq in Hx, Hy. lia.
Qed.

(** The order of eviction (line 160, [files.sort(key=lambda x: x[1])]):
    the sweep visits the same files that were listed, in ascending order of
    access time, and files with equal access times in the order in which
    the directory listing gave them. *)
Theorem sort_by_atime_is_stable l :
  sort_by_atime l ≡ₚ l
  ∧ StronglySorted not_after (sort_by_atime l)
  ∧ ∀ a, List.filter (λ y, y.2 =? a) (sort_by_atime l)
         = List.filter (λ y : string * Z, y.2 =? a) l.
Proof.
  split; [apply sort_by_atime_perm|]. split; [apply sort_by_atime_sorted|].
  intros a. induction l as [|x l IH]; [done|]. cbn [sort_by_atime foldr].
  rewrite insert_by_atime_filter. cbn [List.filter].
  change (foldr insert_by_atime [] l) with (sort_by_atime l). by rewrite IH.
Qed.

(** ** Identities that share a cache entry *)

End CacheMore.

Section WithPillow.
Import Sample SampleMore.
#[local] Existing Instance pillow.

Lemma metadata_survives_restart_witness :
  metadata (Cache.init "psd_cache" (_save_metadata listed_cache world0)).1
  = metadata listed_cache
  ∧ (Cache.init "psd_cache" (_save_metadata listed_cache world0)).2
    = _save_metadata listed_cache world0.
Proof.
  assert (∀ f, fs world0 !! metadata_file listed_cache = Some f →
               f_locked f = false) as Hfree.
  { intros f Hf. assert (fs world0 !! metadata_file listed_cache = None) as Hnone
      by (vm_compute; reflexivity).
    rewrite Hnone in Hf. discriminate Hf. }
  pose proof (metadata_survives_restart listed_cache world0 eq_refl Hfree eq_refl)
    as Hrestart.
  change (cache_dir listed_cache) with "psd_cache" in Hrestart.
  rewrite Hrestart. split; reflexivity.
Defined.

Lemma missing_source_witness :
  fs world0 !! "poster.psd" = None
  ∧ ∃ e, exc_type e = "FileNotFoundError"
         ∧ get_cache_path cache0 world0 "poster.psd" "_full" = Raise e
         ∧ get_cached_image cache0 world0 "poster.psd" "_full" = (world0, Raise e)
         ∧ save_image_to_cache cache0 world0 (Bitmap 1 640 480) "poster.psd" "_full"
           = (cache0,
              emit ERROR ("Failed to save image to cache: " +:+ exc_msg e) world0).
Proof.
  assert (fs world0 !! "poster.psd" = None) as Hnone by (vm_compute; reflexivity).
  split; [exact Hnone|].
  exact (missing_source cache0 world0 "poster.psd" "_full" (Bitmap 1 640 480) Hnone).
Defined.

Lemma last_save_wins_witness :
  let first := save_image_to_cache cache0 quiet_world (Bitmap 1 640 480)
                 "poster.psd" "_full" in
  let second := save_image_to_cache first.1 first.2 (Bitmap 2 800 600)
                  "poster.psd" "_full" in
  (fs quiet_world !! "poster.psd" = Some poster
   ∧ get_cache_path cache0 quiet_world "poster.psd" "_full" = Ok poster_entry
   ∧ st_mtime poster ≤ clock quiet_world
   ∧ is_Some (fs second.2 !! poster_entry))
  ∧ get_cached_image second.1 second.2 "poster.psd" "_full"
    = (second.2, Ok (Some (Bitmap 2 800 600))).
Proof.
  cbv zeta.
  assert (st_mtime poster ≤ clock quiet_world) as H3
    by (vm_compute; intros Hc; discriminate Hc).
  assert (fs quiet_world !! "poster.psd" = Some poster) as H1
    by (vm_compute; reflexivity).
  assert (get_cache_path cache0 quiet_world "poster.psd" "_full" = Ok poster_entry)
    as H2 by (vm_compute; reflexivity).
  assert (∀ f, fs quiet_world !! poster_entry = Some f → f_locked f = false) as H5.
  { intros f Hf. assert (fs quiet_world !! poster_entry = None) as Hnone
      by (vm_compute; reflexivity).
    rewrite Hnone in Hf. discriminate Hf. }
  assert (is_Some
            (fs (save_image_to_cache
                   (save_image_to_cache cache0 quiet_world (Bitmap 1 640 480)
                      "poster.psd" "_full").1
                   (save_image_to_cache cache0 quiet_world (Bitmap 1 640 480)
                      "poster.psd" "_full").2
                   (Bitmap 2 800 600) "poster.psd" "_full").2 !! poster_entry))
    as H4.
  { vm_compute. eexists. reflexivity. }
  split; [exact (conj H1 (conj H2 (conj H3 H4)))|].
  exact (last_save_wins cache0 quiet_world (Bitmap 1 640 480) (Bitmap 2 800 600)
           "poster.psd" "_full" poster poster_entry
           (Png (Bitmap 2 800 600) 1920064) H1 H2 eq_refl eq_refl eq_refl eq_refl
           H5 H3 H4).
Defined.

Lemma cleanup_is_idempotent_witness :
  fs (_cleanup_cache cache0 crowded_world) !! "psd_cache/c_full.png"
  = Some (entry 3 30)
  ∧ fs (_cleanup_cache cache0 crowded_world) !! "psd_cache/a_full.png" = None
  ∧ _cleanup_cache cache0 (_cleanup_cache cache0 crowded_world)
    = _cleanup_cache cache0 crowded_world.
Proof.
  split; [vm_compute; reflexivity|]. split; [vm_compute; reflexivity|].
  apply cleanup_is_idempotent.
  intros p f Hf _ _. exact (crowded_world_unlocked p f Hf).
Defined.

End WithPillow.
End CacheMore.

(** * More about the renderers *)

Module RendererMore.
Import OS Cache Rendering CacheProofs GeneratorProofs RendererProofs CacheMore.
Section RendererMore.
Context `{Externals}.

(** ** The state machine over whole runs *)

(** The callbacks that the requests of a run hand over, in order. *)
Definition requested (es : list event) : list Callback :=
  omap (λ e, match e with Request cb => cb | Finish => None end) es.

(** A renderer that holds a composite and has no worker running is at
    rest: no request and no run of events changes anything; every request
    is answered with the held bitmap, and the callback it brings is neither
    attached nor invoked. *)
Theorem ready_is_terminal s img :
  _composite (sys_renderer s) = Some img →
  sys_running s = 0%nat →
  (∀ cb, get_composite_image cb s = (s, Some img))
  ∧ ∀ es s', steps s es s' → s' = s.
Proof.
  intros Himg Hrun.
  assert (∀ cb, get_composite_image cb s = (s, Some img)) as Hget.
  { intros cb. unfold get_composite_image. by rewrite Himg. }
  split; [exact Hget|].
  intros es s' Hsteps. induction Hsteps as [s|s e s1 es s2 Hstep _ IH]; [done|].
  assert (s1 = s) as ->.
  { destruct Hstep as [s cb|s Hpos]; [by rewrite Hget|lia]. }
  by apply IH.
Qed.

(** A renderer left generating by a worker that died is never revived:
    along any run, requests only lengthen the list of callbacks; no worker
    is started, none can finish, and no callback is invoked. *)
Theorem dead_worker_is_never_replaced s es s' :
  phase_of (sys_renderer s) = Generating →
  sys_running s = 0%nat →
  steps s es s' →
  s' = set_renderer s
         {| filepath := filepath (sys_renderer s); _composite := None;
            _loading := true;
            _callbacks := _callbacks (sys_renderer s) ++ requested es |}.
Proof.
  intros Hph Hrun Hsteps. revert Hph Hrun.
  induction Hsteps as [s|s e s1 es s2 Hstep _ IH]; intros Hph Hrun.
  - unfold requested. simpl. rewrite app_nil_r.
    destruct s as [? ? ? [? c l ?] ? ? ?]. unfold phase_of in Hph. simpl in *.
    destruct c; [done|]. by destruct l.
  - destruct Hstep as [s cb|s Hpos]; [|lia].
    assert (get_composite_image cb s
            = (set_renderer s
                 {| filepath := filepath (sys_renderer s); _composite := None;
                    _loading := true;
                    _callbacks := _callbacks (sys_renderer s)
                                  ++ requested [Request cb] |}, None)) as Hget.
    { unfold get_composite_image, phase_of in *.
      destruct (_composite (sys_renderer s)); [done|].
      destruct (_loading (sys_renderer s)); [|done].
      destruct cb; [done|]. unfold requested. simpl. by rewrite app_nil_r. }
    rewrite Hget in *. cbn [fst] in *. rewrite IH by done.
    unfold set_renderer. cbn. f_equal. f_equal.
    rewrite <- app_assoc. f_equal. unfold requested. by destruct cb.
Qed.

(** An executable reading of [steps], to build runs. *)
Fixpoint run (s : System) (es : list event) : option System :=
  match es with
  | [] => Some s
  | Request cb :: es => run (get_composite_image cb s).1 es
  | Finish :: es =>
      if decide (0 < sys_running s)%nat then run (worker s) es else None
  end.

Lemma run_steps s es s' : run s es = Some s' → steps s es s'.
Proof.
  revert s. induction es as [|[cb|] es IH]; intros s; simpl.
  - intros [= <-]. constructor.
  - intros Hrun. econstructor; [constructor|by apply IH].
  - destruct (decide _) as [Hpos|]; [|done].
    intros Hrun. econstructor; [by constructor|by apply IH].
Qed.

(** ** The constructor *)

(** A renderer can be built for a file that is not there: the lookup's
    [FileNotFoundError] is caught, one warning is logged, nothing else
    changes and the renderer starts idle. *)
Theorem init_survives_a_missing_source psd p cache w :
  p ≠ "" → hasattr psd "composite" = true → fs w !! p = None →
  init psd (Some p) cache w
  = ({| filepath := Some p; _composite := None; _loading := false;
        _callbacks := [] |},
     emit WARNING ("Failed to load from cache: No such file or directory: "
                   +:+ p) w).
Proof.
  intros Hp Hattr Hnone. unfold init. destruct p as [|a p]; [done|].
  rewrite Hattr. unfold get_cached_image, get_cache_path, _get_file_hash, stat.
  by rewrite Hnone.
Qed.

(** ** The generator and the cache *)

Lemma compose_layers_frame i (ls : list Layer) canvas w :
  fs (compose_layers i ls canvas w).2 = fs w
  ∧ clock (compose_layers i ls canvas w).2 = clock w.
Proof.
  revert i canvas w. induction ls as [|layer ls IH]; intros i canvas w; simpl.
  { done. }
  destruct (default true (layer_visible layer)); [|apply IH].
  destruct (paint_layer canvas layer) as [[c|]|e];
    match goal with
    | |- context [compose_layers ?i ?ls ?c ?w] =>
        destruct (IH i c w) as [-> ->]
    end; done.
Qed.

(** The state of the generator when the manual path has run. *)
Lemma generate_composite_saves psd self cache w layers canvas0 :
  psd_layers psd = Some layers → layers ≠ [] →
  blank_canvas psd layers = Ok canvas0 →
  ∃ wg, fs wg = fs w ∧ clock wg = clock w
    ∧ _generate_composite psd self cache w
      = match filepath self with
        | Some (String a path) =>
            ((save_image_to_cache cache wg
                (alpha_composited (rev layers) canvas0) (String a path) "_full").1,
             (save_image_to_cache cache wg
                (alpha_composited (rev layers) canvas0) (String a path) "_full").2,
             Ok (alpha_composited (rev layers) canvas0))
        | _ => (cache, wg, Ok (alpha_composited (rev layers) canvas0))
        end.
Proof.
  intros Hl Hne Hc.
  exists (compose_layers 0 (rev layers) canvas0
            (emit DEBUG "Attempting manual layer composition"
               (emit DEBUG ("Generating composite for PSD: "
                            +:+ psd_type_name psd) w))).2.
  destruct (compose_layers_frame 0 (rev layers) canvas0
              (emit DEBUG "Attempting manual layer composition"
                 (emit DEBUG ("Generating composite for PSD: "
                              +:+ psd_type_name psd) w))) as [Hfs Hclock].
  split; [done|]. split; [done|].
  unfold _generate_composite.
  rewrite builtin_loop_try_methods. cbn [composite]. rewrite Hl.
  destruct layers as [|l ls]; [done|].
  unfold manual_composition. rewrite Hc. cbn [world methods_tried composite].
  rewrite <- (compose_layers_canvas 0 _ canvas0
                (emit DEBUG "Attempting manual layer composition"
                   (emit DEBUG ("Generating composite for PSD: "
                                +:+ psd_type_name psd) w))).
  destruct (compose_layers 0 _ canvas0 _) as [canvas w1].
  cbn [composite world fst snd].
  destruct (filepath self) as [[|a path]|]; [done| |done].
  by destruct (save_image_to_cache _ _ _ _ _).
Qed.

(** What the generator leaves alone.  When the renderer has no file path,
    or the generator ends in its fallback tier (no layer list, an empty
    one, or no canvas), the cache object, the file system and the clock are
    after the call what they were before: only a composite of the layers,
    made for a renderer with a path, is ever written. *)
Theorem generator_writes_only_a_real_composite psd self cache w :
  filepath self = None ∨ filepath self = Some ""
  ∨ psd_layers psd = None ∨ psd_layers psd = Some []
  ∨ (∃ layers e, psd_layers psd = Some layers ∧ blank_canvas psd layers = Raise e) →
  (_generate_composite psd self cache w).1.1 = cache
  ∧ fs (_generate_composite psd self cache w).1.2 = fs w
  ∧ clock (_generate_composite psd self cache w).1.2 = clock w.
Proof.
  intros Hcase.
  destruct (psd_layers psd) as [[|l ls]|] eqn:Hl.
  1,3: unfold _generate_composite; rewrite builtin_loop_try_methods;
       cbn [composite]; rewrite Hl; cbn [composite methods_tried world];
       by destruct (placeholder []).
  destruct (blank_canvas psd (l :: ls)) as [canvas0|e] eqn:Hc.
  - destruct (generate_composite_saves psd self cache w (l :: ls) canvas0)
      as (wg & Hfs & Hclock & ->); [done..|].
    destruct Hcase as [->|[->|[?|[?|(layers & e & [= <-] & ?)]]]];
      [done|done|done|done|congruence].
  - unfold _generate_composite; rewrite builtin_loop_try_methods.
    cbn [composite]. rewrite Hl. unfold manual_composition. rewrite Hc.
    cbn [composite methods_tried world]. by destruct (placeholder _).
Qed.

(** A document whose layers are all hidden, or have nothing to paint,
    is rendered as the blank transparent canvas of its size: the manual
    path succeeds, and the placeholder is not drawn. *)
Theorem unpainted_layers_give_the_blank_canvas psd self cache w layers canvas0 :
  psd_layers psd = Some layers → layers ≠ [] →
  blank_canvas psd layers = Ok canvas0 →
  Forall (λ l, layer_visible l = Some false ∨ layer_topil l = None
               ∨ layer_topil l = Some (Ok None)) layers →
  (_generate_composite psd self cache w).2 = Ok canvas0.
Proof.
  intros Hl Hne Hc Hall.
  destruct (generate_composite_manual psd self cache w layers canvas0 Hl Hne Hc)
    as (cache' & w' & -> & _).
  cbn [snd]. f_equal. apply Forall_rev in Hall.
  induction Hall as [|l ls Hhid _ IH]; [done|].
  cbn [alpha_composited].
  assert ((if default true (layer_visible l)
           then match paint_layer canvas0 l with
                | Ok (Some canvas') => canvas'
                | _ => canvas0
                end
           else canvas0) = canvas0) as ->; [|exact IH].
  unfold paint_layer.
  destruct Hhid as [->|[->| ->]]; [done|by destruct (default _ _)..].
Qed.

(** The top layer is painted last.  In a document of at least two layers
    whose top layer is visible and renders to a bitmap, the composite is
    the composite of the document without its top layer (on the same
    canvas), with that bitmap alpha-composited onto it at the layer's
    offset; when that last call raises, the composite of the rest is
    returned as it is. *)
Theorem top_layer_is_painted_last psd psd' self cache w top rest canvas0 img x y :
  psd_layers psd = Some (top :: rest) → rest ≠ [] →
  psd_layers psd' = Some rest →
  blank_canvas psd (top :: rest) = Ok canvas0 →
  blank_canvas psd' rest = Ok canvas0 →
  default true (layer_visible top) = true →
  layer_topil top = Some (Ok (Some img)) →
  layer_left top = Some x → layer_top top = Some y →
  ∃ below,
    (_generate_composite psd' self cache w).2 = Ok below
    ∧ (_generate_composite psd self cache w).2
      = Ok (match alpha_composite below img (x, y) with
            | Ok canvas => canvas
            | Raise _ => below
            end).
Proof.
  intros Hl Hne Hl' Hc Hc' Hvis Htopil Hx Hy.
  destruct (generate_composite_manual psd self cache w _ canvas0 Hl)
    as (cache1 & w1 & -> & _); [done|done|].
  destruct (generate_composite_manual psd' self cache w _ canvas0 Hl' Hne Hc')
    as (cache2 & w2 & -> & _).
  exists (alpha_composited (rev rest) canvas0). split; [done|].
  cbn [snd]. f_equal. simpl. rewrite alpha_composited_app. simpl.
  rewrite Hvis. unfold paint_layer. rewrite Htopil, Hx, Hy.
  cbn [mbind result_bind].
  by destruct (alpha_composite _ img (x, y)).
Qed.

(** From the generator to the next renderer.  Let the manual path compose
    the layers of a document for a renderer with a path, under the
    conditions of a cache round trip (the source exists outside the cache
    directory and is not dated ahead of the clock, the slot can be written,
    the encoder accepts the composite and the decoder gives it back) and
    let the sweep keep the new entry.  Then a renderer built afterwards for
    the same path starts ready with that composite, and building it changes
    nothing. *)
Theorem generated_composite_greets_the_next_renderer
    psd self cache w layers canvas0 p src cpath data :
  psd_layers psd = Some layers → layers ≠ [] →
  blank_canvas psd layers = Ok canvas0 →
  filepath self = Some p → p ≠ "" →
  hasattr psd "composite" = true →
  fs w !! p = Some src → st_mtime src ≤ clock w →
  get_cache_path cache w p "_full" = Ok cpath →
  metadata_file cache = path_join (cache_dir cache) "metadata.json" →
  String.prefix (cache_dir cache +:+ "/") p = false →
  (∀ f, fs w !! cpath = Some f → f_locked f = false) →
  png_encode (alpha_composited (rev layers) canvas0) = Ok data →
  Image_open data = Ok (alpha_composited (rev layers) canvas0) →
  is_Some (fs (_generate_composite psd self cache w).1.2 !! cpath) →
  (_generate_composite psd self cache w).2
  = Ok (alpha_composited (rev layers) canvas0)
  ∧ init psd (Some p) (_generate_composite psd self cache w).1.1
      (_generate_composite psd self cache w).1.2
    = ({| filepath := Some p;
          _composite := Some (alpha_composited (rev layers) canvas0);
          _loading := false; _callbacks := [] |},
       (_generate_composite psd self cache w).1.2).
Proof.
  intros Hl Hne Hc Hpath Hp Hattr Hsrc Hdated Hcpath Hindex Hout Hfree Henc Hdec.
  destruct (generate_composite_saves psd self cache w layers canvas0 Hl Hne Hc)
    as (wg & Hfs & Hclock & ->).
  rewrite Hpath. destruct p as [|a p]; [done|]. cbn [fst snd].
  intros [cfile Hentry]. split; [done|].
  assert (get_cache_path cache wg (String a p) "_full" = Ok cpath) as Hcpath'.
  { rewrite <- Hcpath. apply get_cache_path_agrees; [done|by rewrite Hfs]. }
  destruct (save_outcome cache wg (alpha_composited (rev layers) canvas0)
              (String a p) "_full" src cpath)
    as (Hkept & Hclock' & Hdir & _ & Hnew); [by rewrite Hfs|done|done|done| |].
  { by rewrite Hfs. }
  destruct (Hnew cfile Hentry) as (_ & Hdata).
  destruct (Hdata data Henc) as [Hcontent Hmtime].
  unfold init. rewrite Hattr.
  rewrite (get_cached_image_hit _ _ (String a p) "_full" src cpath cfile
             (alpha_composited (rev layers) canvas0)); [done|done| |done| |].
  - rewrite <- Hcpath'. apply get_cache_path_agrees; [done|].
    by rewrite Hkept, Hfs.
  - rewrite Hmtime, Hclock. done.
  - by rewrite Hcontent.
Qed.

(** ** The light renderer *)

Section Light.
Import Light.
Variable save_png : Image → result Blob.
Variable Image_close : Image → result unit.

(** The light renderer converts once.  When [psd.composite()] returns a
    bitmap, the PNG writer accepts it and the preview file can be written,
    the first [get_composite_image] writes the encoded bitmap to the
    preview path, stamped with the current time, keeps the bitmap and
    returns it; every later call returns that same bitmap and neither
    calls the document again nor touches the world, whatever the document
    has become. *)
Theorem light_renderer_converts_once psd self w img data :
  _png_image self = None →
  psd_composite psd = Some (Ok (Some img)) →
  save_png img = Ok data →
  (∀ f, fs w !! preview_path self = Some f → f_locked f = false) →
  let self' := {| preview_path := preview_path self; _png_image := Some img |} in
  ∃ nf, f_content nf = data ∧ st_mtime nf = clock w
    ∧ Light.get_composite_image save_png psd self w
      = (self', set_fs w (<[preview_path self := nf]> (fs w)), Ok (Some img))
    ∧ ∀ psd' w', Light.get_composite_image save_png psd' self' w'
                 = (self', w', Ok (Some img)).
Proof.
  intros Hnone Hcomp Henc Hfree self'.
  destruct (write_fresh w (preview_path self) data Hfree)
    as (nf & Hwrite & Hdata & Hmtime & _).
  exists nf. split; [done|]. split; [done|]. split; [|done].
  unfold Light.get_composite_image, _convert_to_png.
  rewrite Hnone, Hcomp. cbn [call mbind result_bind]. rewrite Henc.
  cbn [mbind result_bind]. by rewrite Hwrite.
Qed.

(** When [psd.composite] is missing, raises, or returns [None], the
    exception leaves [get_composite_image] as it was raised, after two
    error records, one from each handler; the renderer and the files are
    unchanged, so that the next call tries the conversion again. *)
Theorem light_renderer_reports_and_reraises psd self w e :
  _png_image self = None →
  call "composite" (psd_composite psd) = Raise e
  ∨ (call "composite" (psd_composite psd) = Ok None ∧ e = AttributeError "save") →
  Light.get_composite_image save_png psd self w
  = (self,
     emit ERROR ("Error in light rendering: " +:+ exc_msg e)
       (emit ERROR ("Error converting PSD to PNG: " +:+ exc_msg e) w),
     Raise e).
Proof.
  intros Hnone Hcase. unfold Light.get_composite_image, _convert_to_png.
  rewrite Hnone. by destruct Hcase as [->|[-> ->]].
Qed.

(** The bitmap a light renderer holds is stale until [cleanup]: after an
    edit of the document, [get_composite_image] still returns the bitmap
    converted earlier; [cleanup] closes and forgets it without touching the
    world, and the next call converts the document as it is now. *)
Theorem cleanup_lets_the_renderer_convert_again psd self w img img' data :
  _png_image self = Some img →
  Image_close img = Ok () →
  psd_composite psd = Some (Ok (Some img')) →
  save_png img' = Ok data →
  (∀ f, fs w !! preview_path self = Some f → f_locked f = false) →
  Light.get_composite_image save_png psd self w = (self, w, Ok (Some img))
  ∧ (cleanup Image_close self w).2 = w
  ∧ (Light.get_composite_image save_png psd
       (cleanup Image_close self w).1 w).2 = Ok (Some img').
Proof.
  intros Hheld Hclose Hcomp Henc Hfree.
  split; [unfold Light.get_composite_image; by rewrite Hheld|].
  unfold cleanup. rewrite Hheld, Hclose. split; [done|].
  destruct (write_fresh w (preview_path self) data Hfree) as (nf & Hwrite & _).
  unfold Light.get_composite_image, _convert_to_png.
  cbn [fst _png_image preview_path]. rewrite Hcomp.
  cbn [call mbind result_bind]. rewrite Henc.
  cbn [mbind result_bind]. by rewrite Hwrite.
Qed.

End Light.

End RendererMore.
Section WithPillow.
Import Sample SampleMore.
#[local] Existing Instance pillow.

Lemma ready_is_terminal_witness :
  get_composite_image (Some on_ready) grouped_system
  = (grouped_system, Some (Bitmap 20 4 4))
  ∧ ∀ es s', steps grouped_system es s' → s' = grouped_system.
Proof.
  destruct (ready_is_terminal grouped_system (Bitmap 20 4 4) eq_refl eq_refl)
    as [Hget Hrest].
  split; [apply Hget|exact Hrest].
Defined.

Lemma init_survives_a_missing_source_witness :
  init layered_psd (Some "poster.psd") cache0 world0
  = (poster_renderer,
     emit WARNING "Failed to load from cache: No such file or directory: poster.psd"
       world0).
Proof.
  apply (init_survives_a_missing_source layered_psd "poster.psd" cache0 world0);
    [discriminate|reflexivity|vm_compute; reflexivity].
Defined.

Lemma generator_writes_only_a_real_composite_witness :
  (_generate_composite layered_psd renderer0 cache0 quiet_world).1.1 = cache0
  ∧ fs (_generate_composite layered_psd renderer0 cache0 quiet_world).1.2
    = fs quiet_world
  ∧ clock (_generate_composite layered_psd renderer0 cache0 quiet_world).1.2
    = clock quiet_world.
Proof.
  apply (generator_writes_only_a_real_composite layered_psd renderer0 cache0
           quiet_world).
  left. reflexivity.
Defined.

Lemma unpainted_layers_give_the_blank_canvas_witness :
  (_generate_composite hidden_psd renderer0 cache0 world0).2
  = Ok (New "RGBA" 4 4 [0; 0; 0; 0]).
Proof.
  apply (unpainted_layers_give_the_blank_canvas hidden_psd renderer0 cache0 world0
           [leaf "draft" false 30; guide_layer]);
    [reflexivity|discriminate|reflexivity|].
  apply List.Forall_cons; [left; reflexivity|].
  apply List.Forall_cons; [right; left; reflexivity|]. apply List.Forall_nil.
Defined.

Lemma top_layer_is_painted_last_witness :
  ∃ below,
    (_generate_composite untitled_psd renderer0 cache0 world0).2 = Ok below
    ∧ (_generate_composite layered_psd renderer0 cache0 world0).2
      = Ok (Over below (Bitmap 3 2 2) (1, 1)).
Proof.
  destruct (top_layer_is_painted_last layered_psd untitled_psd renderer0 cache0
              world0 title_layer [smart_layer; background_layer]
              (New "RGBA" 4 4 [0; 0; 0; 0]) (Bitmap 3 2 2) 1 1)
    as (below & Hrest & Hall);
    [reflexivity|discriminate|reflexivity|reflexivity|reflexivity|reflexivity
    |reflexivity|reflexivity|reflexivity|].
  exists below. split; [exact Hrest|exact Hall].
Defined.

Lemma generated_composite_greets_the_next_renderer_witness :
  let img := Over (Over (New "RGBA" 4 4 [0; 0; 0; 0]) (Bitmap 2 4 4) (0, 0))
               (Bitmap 3 2 2) (1, 1) in
  let after := _generate_composite layered_psd poster_renderer cache0 quiet_world in
  (fs quiet_world !! "poster.psd" = Some poster
   ∧ get_cache_path cache0 quiet_world "poster.psd" "_full" = Ok poster_entry
   ∧ is_Some (fs after.1.2 !! poster_entry))
  ∧ after.2 = Ok img
  ∧ (init layered_psd (Some "poster.psd") after.1.1 after.1.2).1
    = {| filepath := Some "poster.psd"; _composite := Some img;
         _loading := false; _callbacks := [] |}.
Proof.
  cbv zeta.
  assert (fs quiet_world !! "poster.psd" = Some poster) as H1
    by (vm_compute; reflexivity).
  assert (get_cache_path cache0 quiet_world "poster.psd" "_full" = Ok poster_entry)
    as H2 by (vm_compute; reflexivity).
  assert (st_mtime poster ≤ clock quiet_world) as H3
    by (vm_compute; intros Hc; discriminate Hc).
  assert (∀ f, fs quiet_world !! poster_entry = Some f → f_locked f = false) as H4.
  { intros f Hf. assert (fs quiet_world !! poster_entry = None) as Hnone
      by (vm_compute; reflexivity).
    rewrite Hnone in Hf. discriminate Hf. }
  assert (is_Some
            (fs (_generate_composite layered_psd poster_renderer cache0
                   quiet_world).1.2 !! poster_entry)) as H5.
  { vm_compute. eexists. reflexivity. }
  assert ("poster.psd" ≠ "") as H6 by discriminate.
  assert ([title_layer; smart_layer; background_layer] ≠ []) as H7 by discriminate.
  split; [exact (conj H1 (conj H2 H5))|].
  destruct (generated_composite_greets_the_next_renderer layered_psd
              poster_renderer cache0 quiet_world
              [title_layer; smart_layer; background_layer]
              (New "RGBA" 4 4 [0; 0; 0; 0]) "poster.psd" poster poster_entry
              (Png (Over (Over (New "RGBA" 4 4 [0; 0; 0; 0]) (Bitmap 2 4 4) (0, 0))
                      (Bitmap 3 2 2) (1, 1)) 128)
              eq_refl H7 eq_refl eq_refl H6 eq_refl H1 H3 H2 eq_refl eq_refl H4
              eq_refl eq_refl H5) as [Hres Hinit].
  split; [exact Hres|]. rewrite Hinit. reflexivity.
Defined.

Lemma light_renderer_converts_once_witness :
  let held := {| Light.preview_path := "poster_preview.png";
                 Light._png_image := Some (Bitmap 1 640 480) |} in
  (Light.get_composite_image png_encode flat_psd preview_renderer quiet_world).2
  = Ok (Some (Bitmap 1 640 480))
  ∧ Light.get_composite_image png_encode edited_psd held world0
    = (held, world0, Ok (Some (Bitmap 1 640 480))).
Proof.
  intros held.
  assert (∀ f, fs quiet_world !! Light.preview_path preview_renderer = Some f →
               f_locked f = false) as Hfree.
  { intros f Hf.
    assert (fs quiet_world !! Light.preview_path preview_renderer = None) as Hnone
      by (vm_compute; reflexivity).
    rewrite Hnone in Hf. discriminate Hf. }
  destruct (light_renderer_converts_once png_encode flat_psd preview_renderer
              quiet_world (Bitmap 1 640 480) (Png (Bitmap 1 640 480) 1228864)
              eq_refl eq_refl eq_refl Hfree) as (nf & _ & _ & Hfirst & Hlater).
  split; [rewrite Hfirst; reflexivity|apply Hlater].
Defined.

Lemma light_renderer_reports_and_reraises_witness :
  Light.get_composite_image png_encode layered_psd preview_renderer world0
  = (preview_renderer,
     {| fs := ∅; clock := 0;
        log := [Log ERROR "Error converting PSD to PNG: Unsupported smart object";
                Log ERROR "Error in light rendering: Unsupported smart object"] |},
     Raise (Exn "ValueError" "Unsupported smart object")).
Proof.
  rewrite (light_renderer_reports_and_reraises png_encode layered_psd
             preview_renderer world0 (Exn "ValueError" "Unsupported smart object"));
    [reflexivity|reflexivity|left; reflexivity].
Defined.

Lemma cleanup_lets_the_renderer_convert_again_witness :
  let held := {| Light.preview_path := "poster_preview.png";
                 Light._png_image := Some (Bitmap 1 640 480) |} in
  Light.get_composite_image png_encode edited_psd held quiet_world
  = (held, quiet_world, Ok (Some (Bitmap 1 640 480)))
  ∧ (Light.cleanup (λ _, Ok ()) held quiet_world).2 = quiet_world
  ∧ (Light.get_composite_image png_encode edited_psd
       (Light.cleanup (λ _, Ok ()) held quiet_world).1 quiet_world).2
    = Ok (Some (Bitmap 5 640 480)).
Proof.
  intros held.
  assert (∀ f, fs quiet_world !! Light.preview_path held = Some f →
               f_locked f = false) as Hfree.
  { intros f Hf.
    assert (fs quiet_world !! Light.preview_path held = None) as Hnone
      by (vm_compute; reflexivity).
    rewrite Hnone in Hf. discriminate Hf. }
  exact (cleanup_lets_the_renderer_convert_again png_encode (λ _, Ok ())
           edited_psd held quiet_world (Bitmap 1 640 480) (Bitmap 5 640 480)
           (Png (Bitmap 5 640 480) 1228864) eq_refl eq_refl eq_refl eq_refl Hfree).
Defined.

End WithPillow.

Section Headless.
Import Sample.
#[local] Existing Instance headless.

Lemma dead_worker_is_never_replaced_witness :
  let s := worker (requests [on_ready] (boot bare_psd)).1 in
  let es := [Request (Some on_ready_closed); Request None] in
  ∃ s', steps s es s'
    ∧ _callbacks (sys_renderer s') = [on_ready; on_ready_closed]
    ∧ sys_started s' = 1%nat ∧ sys_running s' = 0%nat ∧ sys_invoked s' = [].
Proof.
  intros s es.
  assert (run s es = Some (requests [on_ready_closed] s).1) as Hrun
    by (vm_compute; reflexivity).
  pose proof (run_steps _ _ _ Hrun) as Hsteps.
  eexists. split; [exact Hsteps|].
  rewrite (dead_worker_is_never_replaced s es _ eq_refl eq_refl Hsteps).
  repeat split; reflexivity.
Defined.

End Headless.

End RendererMore.

(** * More about [set_layer_visibility] *)

Module DocumentMore.
Import OS Cache Rendering Document DocumentProofs.
Section DocumentMore.
Context `{Externals}.

Lemma Forall_preorder_children (P : Layer → Prop) (ch : list Layer) :
  Forall P (flat_map preorder ch) → Forall (λ c, Forall P (preorder c)) ch.
Proof.
  induction ch as [|c ch IH]; simpl; [constructor|].
  intros [Hc Hrest]%Forall_app. constructor; [done|by apply IH].
Qed.

(** ** The search returns, and finds what is there *)

Lemma first_hit_returns {A} (f : A → result (bool * A)) (xs : list A) :
  Forall (λ x, ∃ hit x', f x = Ok (hit, x')) xs →
  ∃ hit xs', first_hit f xs = Ok (hit, xs').
Proof.
  induction 1 as [|x rest (h & x' & Hx) _ (h' & rest' & IH)]; simpl.
  { by eexists _, _. }
  rewrite Hx. cbn [mbind result_bind]. destruct h; [by eexists _, _|].
  rewrite IH. cbn [mbind result_bind]. by eexists _, _.
Qed.

Lemma set_visibility_returns name v (l : Layer) :
  Forall (λ x, is_Some (layer_name x)) (preorder l) →
  ∃ hit l', set_visibility l name v = Ok (hit, l').
Proof.
  induction l as [n vis t x y w h|n vis t x y w h ch IH] using Layer_tree_ind;
    simpl; intros Hnamed.
  - apply Forall_cons_1 in Hnamed as [[n' Hn] _]. simpl in Hn. subst n.
    destruct (String.eqb n' name); by eexists _, _.
  - apply Forall_cons_1 in Hnamed as [[n' Hn] Hch]. simpl in Hn. subst n.
    destruct (String.eqb n' name); [by eexists _, _|].
    apply Forall_preorder_children in Hch.
    destruct (first_hit_returns (λ child, set_visibility child name v) ch)
      as (hit & ch' & ->).
    { eapply Forall_impl; [exact (proj2 (Forall_and _ _) (conj IH Hch))|].
      intros c [Hc Hnc]. by apply Hc. }
    cbn [mbind result_bind]. by eexists _, _.
Qed.

(** On a document whose layers all have a name, at every depth,
    [set_layer_visibility] raises nothing, and it returns [True] exactly
    when some layer, at any depth, has the name asked for. *)
Theorem set_layer_visibility_finds_any_named_layer doc p name v :
  psd doc = Some p →
  Forall (λ l, is_Some (layer_name l)) (all_layers p) →
  ∃ doc', set_layer_visibility doc name v
          = Ok (bool_decide (Some name ∈ layer_name <$> all_layers p), doc').
Proof.
  intros Hp Hnamed. unfold set_layer_visibility. rewrite Hp.
  unfold all_layers in *.
  destruct (first_hit_returns (λ layer, set_visibility layer name v)
              (default [] (psd_layers p))) as (hit & ls' & Hfh).
  { apply Forall_preorder_children in Hnamed.
    eapply Forall_impl; [exact Hnamed|]. intros l. apply set_visibility_returns. }
  rewrite Hfh. cbn [mbind result_bind].
  assert (Forall (λ l, ∀ hit l', set_visibility l name v = Ok (hit, l') →
                        erase_visible l' = erase_visible l
                        ∧ (hit = false → l' = l)
                        ∧ outcome name v hit (preorder l) (preorder l'))
            (default [] (psd_layers p))) as HF.
  { apply Forall_forall. intros l _. apply set_visibility_outcome. }
  destruct (first_hit_outcome name v _ HF _ _ Hfh) as (_ & _ & Hout).
  eexists. do 2 f_equal. destruct hit; symmetry.
  - destruct Hout as (b & t & a & -> & Hname & _).
    apply bool_decide_eq_true_2. rewrite <- Hname.
    apply list_elem_of_fmap_2, elem_of_app. right. left.
  - destruct Hout as [_ Hnone]. apply bool_decide_eq_false_2.
    intros (l & Hl & Hin)%list_elem_of_fmap.
    by eapply (proj1 (Forall_forall _ _) Hnone l Hin).
Qed.

(** ** Repeating a call *)

Lemma first_hit_again {A} (f : A → result (bool * A)) (xs : list A) :
  Forall (λ x, ∀ hit x', f x = Ok (hit, x') → f x' = Ok (hit, x')) xs →
  ∀ hit xs', first_hit f xs = Ok (hit, xs') → first_hit f xs' = Ok (hit, xs').
Proof.
  induction 1 as [|x rest Hx _ IH]; intros hit xs'; simpl.
  { by intros [= <- <-]. }
  destruct (f x) as [[h x']|e] eqn:Hfx; [|done]. cbn [mbind result_bind].
  pose proof (Hx _ _ eq_refl) as Hx'. destruct h.
  - intros [= <- <-]. simpl. by rewrite Hx'.
  - destruct (first_hit f rest) as [[h' rest']|e] eqn:Hrest; [|done].
    intros [= <- <-]. simpl. rewrite Hx'. cbn [mbind result_bind].
    by rewrite (IH _ _ eq_refl).
Qed.

Lemma set_visibility_again name v (l : Layer) :
  ∀ hit l', set_visibility l name v = Ok (hit, l') →
            set_visibility l' name v = Ok (hit, l').
Proof.
  induction l as [n vis t x y w h|n vis t x y w h ch IH] using Layer_tree_ind;
    intros hit l'; simpl.
  - destruct n as [n|]; [|done]. destruct (String.eqb n name) eqn:Hn.
    + intros [= <- <-]. simpl. by rewrite Hn.
    + intros [= <- <-]. simpl. by rewrite Hn.
  - destruct n as [n|]; [|done]. destruct (String.eqb n name) eqn:Hn.
    + intros [= <- <-]. simpl. by rewrite Hn.
    + destruct (first_hit _ ch) as [[h' ch']|e] eqn:Hch; [|done].
      intros [= <- <-]. simpl. rewrite Hn.
      by rewrite (first_hit_again _ ch IH _ _ Hch).
Qed.

(** A call that returned can be repeated: the second call, on the
    document the first one left, returns the same flag and changes
    nothing. *)
Theorem set_layer_visibility_is_idempotent doc name v hit doc' :
  set_layer_visibility doc name v = Ok (hit, doc') →
  set_layer_visibility doc' name v = Ok (hit, doc').
Proof.
  unfold set_layer_visibility. destruct (psd doc) as [p|] eqn:Hp.
  2:{ intros [= <- <-]. by rewrite Hp. }
  destruct (first_hit _ _) as [[h ls']|e] eqn:Hfh; [|done].
  intros [= <- <-]. cbn [psd doc_filepath _renderer _render_mode].
  assert (first_hit (λ layer, set_visibility layer name v) ls' = Ok (h, ls'))
    as Hagain.
  { eapply first_hit_again; [|exact Hfh].
    apply Forall_forall. intros l _. apply set_visibility_again. }
  destruct (psd_layers p) as [ls|] eqn:Hls; cbn [set_layers psd_layers fmap option_fmap option_map default].
  - unfold id. by rewrite Hagain.
  - simpl in Hfh. injection Hfh as <- <-. done.
Qed.

(** ** Undoing a call *)

Lemma first_hit_miss_any {A} (f g : A → result (bool * A)) (xs : list A) :
  Forall (λ x, ∀ x', f x = Ok (false, x') → g x = Ok (false, x)) xs →
  ∀ xs', first_hit f xs = Ok (false, xs') → first_hit g xs = Ok (false, xs).
Proof.
  induction 1 as [|x rest Hx _ IH]; intros xs'; simpl; [done|].
  destruct (f x) as [[h x']|e] eqn:Hfx; [|done]. cbn [mbind result_bind].
  destruct h; [done|]. rewrite (Hx _ eq_refl). cbn [mbind result_bind].
  destruct (first_hit f rest) as [[h' rest']|e] eqn:Hrest; [|done].
  destruct h'; [done|]. intros _. by rewrite (IH _ eq_refl).
Qed.

Lemma set_visibility_miss_any name v v0 (l : Layer) :
  ∀ l', set_visibility l name v = Ok (false, l') →
        set_visibility l name v0 = Ok (false, l).
Proof.
  induction l as [n vis t x y w h|n vis t x y w h ch IH] using Layer_tree_ind;
    intros l'; simpl.
  - destruct n as [n|]; [|done]. by destruct (String.eqb n name).
  - destruct n as [n|]; [|done]. destruct (String.eqb n name); [done|].
    destruct (first_hit _ ch) as [[h' ch']|e] eqn:Hch; [|done].
    destruct h'; [done|]. intros _.
    by rewrite (first_hit_miss_any _ (λ child, set_visibility child name v0)
                  ch IH _ Hch).
Qed.

Lemma first_hit_undo name v (ls : list Layer) :
  Forall (λ l, ∀ l', set_visibility l name v = Ok (true, l') →
                ∃ v0, set_visibility l' name v0 = Ok (true, l)) ls →
  ∀ ls', first_hit (λ l, set_visibility l name v) ls = Ok (true, ls') →
         ∃ v0, first_hit (λ l, set_visibility l name v0) ls' = Ok (true, ls).
Proof.
  induction 1 as [|c rest Hc _ IH]; intros ls'; simpl; [done|].
  destruct (set_visibility c name v) as [[h c']|e] eqn:Hset; [|done].
  cbn [mbind result_bind]. destruct h.
  - intros [= <-]. destruct (Hc _ eq_refl) as [v0 Hback]. exists v0.
    simpl. by rewrite Hback.
  - destruct (first_hit _ rest) as [[h' rest']|e] eqn:Hrest; [|done].
    intros [= -> <-]. destruct (IH _ eq_refl) as [v0 Hback]. exists v0.
    destruct (set_visibility_outcome name v c _ _ Hset) as (_ & Hsame & _).
    rewrite (Hsame eq_refl). simpl.
    rewrite (set_visibility_miss_any name v v0 c _ Hset).
    cbn [mbind result_bind]. by rewrite Hback.
Qed.

Lemma set_visibility_undo name v (l : Layer) :
  Forall (λ x, is_Some (layer_visible x)) (preorder l) →
  ∀ l', set_visibility l name v = Ok (true, l') →
        ∃ v0, set_visibility l' name v0 = Ok (true, l).
Proof.
  induction l as [n vis t x y w h|n vis t x y w h ch IH] using Layer_tree_ind;
    intros Hflag l'; simpl.
  - apply Forall_cons_1 in Hflag as [[v0 Hv0] _]. simpl in Hv0. subst vis.
    destruct n as [n|]; [|done]. destruct (String.eqb n name) eqn:Hn; [|done].
    intros [= <-]. exists v0. simpl. by rewrite Hn.
  - apply Forall_cons_1 in Hflag as [[v0 Hv0] Hch]. simpl in Hv0. subst vis.
    destruct n as [n|]; [|done]. destruct (String.eqb n name) eqn:Hn.
    + intros [= <-]. exists v0. simpl. by rewrite Hn.
    + destruct (first_hit _ ch) as [[h' ch']|e] eqn:Hfh; [|done].
      intros [= -> <-].
      apply Forall_preorder_children in Hch.
      destruct (first_hit_undo name v ch) with (ls' := ch') as [v1 Hback];
        [|done|].
      { eapply Forall_impl; [exact (proj2 (Forall_and _ _) (conj IH Hch))|].
        intros c [Hc Hfc]. by apply Hc. }
      exists v1. simpl. rewrite Hn, Hback. done.
Qed.

(** A hit can be undone.  On a document whose layers all carry a
    [visible] flag, a call that found its layer is reversed by one more
    call for the same name, with the flag the layer had: that call finds
    the same layer and gives back the document as it was. *)
Theorem a_found_layer_can_be_restored doc p name v doc' :
  psd doc = Some p →
  Forall (λ l, is_Some (layer_visible l)) (all_layers p) →
  set_layer_visibility doc name v = Ok (true, doc') →
  ∃ v0, set_layer_visibility doc' name v0 = Ok (true, doc).
Proof.
  intros Hp Hflag. unfold set_layer_visibility. rewrite Hp.
  destruct (first_hit _ _) as [[h ls']|e] eqn:Hfh; [|done].
  intros [= -> <-]. cbn [psd doc_filepath _renderer _render_mode].
  unfold all_layers in Hflag.
  destruct (psd_layers p) as [ls|] eqn:Hls; [|done]. simpl in Hfh, Hflag.
  destruct (first_hit_undo name v ls) with (ls' := ls') as [v0 Hback]; [|done|].
  { apply Forall_preorder_children in Hflag.
    eapply Forall_impl; [exact Hflag|]. intros l. apply set_visibility_undo. }
  exists v0. cbn [set_layers psd_layers fmap option_fmap option_map default].
  unfold id. rewrite Hback. cbn [mbind result_bind]. do 2 f_equal.
  destruct doc as [fp ps rd md]. simpl in *. subst ps. do 2 f_equal.
  destruct p. simpl in *. by subst.
Qed.

End DocumentMore.

Section WithPillow.
Import Sample SampleMore.
#[local] Existing Instance pillow.

Lemma set_layer_visibility_finds_any_named_layer_witness :
  (∃ doc', set_layer_visibility grouped_doc "caption" false = Ok (true, doc'))
  ∧ ∃ doc', set_layer_visibility grouped_doc "watermark" false = Ok (false, doc').
Proof.
  assert (Forall (λ l, is_Some (layer_name l)) (all_layers grouped_psd)) as Hnamed.
  { unfold all_layers. simpl.
    repeat (apply List.Forall_cons; [by eexists|]). apply List.Forall_nil. }
  split.
  - exact (set_layer_visibility_finds_any_named_layer grouped_doc grouped_psd
             "caption" false eq_refl Hnamed).
  - exact (set_layer_visibility_finds_any_named_layer grouped_doc grouped_psd
             "watermark" false eq_refl Hnamed).
Defined.

Lemma set_layer_visibility_is_idempotent_witness :
  set_layer_visibility grouped_doc "caption" false = Ok (true, captionless_doc)
  ∧ set_layer_visibility captionless_doc "caption" false
    = Ok (true, captionless_doc).
Proof.
  assert (set_layer_visibility grouped_doc "caption" false
          = Ok (true, captionless_doc)) as Hset by reflexivity.
  split; [exact Hset|].
  exact (set_layer_visibility_is_idempotent grouped_doc "caption" false true
           captionless_doc Hset).
Defined.

Lemma a_found_layer_can_be_restored_witness :
  set_layer_visibility grouped_doc "caption" false = Ok (true, captionless_doc)
  ∧ ∃ v0, set_layer_visibility captionless_doc "caption" v0 = Ok (true, grouped_doc).
Proof.
  assert (set_layer_visibility grouped_doc "caption" false
          = Ok (true, captionless_doc)) as Hset by reflexivity.
  assert (Forall (λ l, is_Some (layer_visible l)) (all_layers grouped_psd))
    as Hflag.
  { unfold all_layers. simpl.
    repeat (apply List.Forall_cons; [by eexists|]). apply List.Forall_nil. }
  split; [exact Hset|].
  exact (a_found_layer_can_be_restored grouped_doc grouped_psd "caption" false
           captionless_doc eq_refl Hflag Hset).
Defined.

End WithPillow.
End DocumentMore.
